(** * Background component of maps4fs: rasters, triangulation, water masks

    Shallow embedding of [src/maps4fs/generator/background.py]. A numpy
    raster is a record of its shape and a pixel function; the numpy/cv2
    primitives the component calls are written out as Rocq functions. *)

From Stdlib Require Import ZArith Ascii String List Lia Bool QArith Qround.
Import ListNotations.
Open Scope Z_scope.

(** ** Rasters *)

(** A single-channel numpy array of shape [(rows, cols)]; [px i j] is
    [arr[i, j]] for [i < rows], [j < cols]. *)
Record Raster := mkRaster {
  rows : nat;
  cols : nat;
  px : nat -> nat -> Z
}.

(** Row-major list of the pixels ([arr.ravel()]). *)
Definition ravel (r : Raster) : list Z :=
  flat_map (fun i => map (fun j => px r i j) (seq 0 (cols r))) (seq 0 (rows r)).

(** [arr.max()]: raises on an empty array. *)
Definition raster_max (r : Raster) : option Z :=
  match ravel r with
  | [] => None
  | x :: l => Some (fold_left Z.max l x)
  end.

(** [arr.min()]: raises on an empty array. *)
Definition raster_min (r : Raster) : option Z :=
  match ravel r with
  | [] => None
  | x :: l => Some (fold_left Z.min l x)
  end.

(** [m - arr] for a scalar [m]; in [plane_from_np] [m] is the array's own
    maximum, so the unsigned subtraction never wraps. *)
Definition invert (r : Raster) (m : Z) : Raster :=
  mkRaster (rows r) (cols r) (fun i j => m - px r i j).

(** ** Mesh synthesis: the triangulation of [Background.plane_from_np] *)

(** A vertex [(x, y, z)] of [np.column_stack([x.ravel(), y.ravel(), z.ravel()])]. *)
Definition vertex : Type := (Z * Z * Z)%type.
(** A face [[a, b, c]] of vertex indices. *)
Definition face : Type := (nat * nat * nat)%type.

(** [np.meshgrid(linspace(0, cols-1, cols), linspace(0, rows-1, rows))]
    flattened together with [z]: vertex [i * cols + j] is [(j, i, z[i, j])]. *)
Definition grid_vertices (z : Raster) : list vertex :=
  flat_map (fun i => map (fun j => (Z.of_nat j, Z.of_nat i, px z i j))
                         (seq 0 (cols z)))
           (seq 0 (rows z)).

(** Body of the inner loop for the cell [(i, j)]. *)
Definition cell_faces (include_zeros : bool) (z : Raster) (ground : Z)
    (i j : nat) : list face :=
  let cs := cols z in
  let top_left := (i * cs + j)%nat in
  let top_right := (top_left + 1)%nat in
  let bottom_left := (top_left + cs)%nat in
  let bottom_right := (bottom_left + 1)%nat in
  if existsb (Z.eqb ground)
       [px z i j; px z i (j + 1); px z (i + 1) j; px z (i + 1) (j + 1)]
     && negb include_zeros
  then []
  else [(top_left, bottom_left, bottom_right); (top_left, bottom_right, top_right)].

(** [for i in range(rows - 1): for j in range(cols - 1): ...] *)
Definition grid_faces (include_zeros : bool) (z : Raster) (ground : Z) : list face :=
  flat_map (fun i => flat_map (fun j => cell_faces include_zeros z ground i j)
                              (seq 0 (cols z - 1)))
           (seq 0 (rows z - 1)).

(** Lines 258-298 of [plane_from_np], applied to the (already resized and,
    if requested, center-zeroed) raster: invert the heights, take the
    ground level [z.max()], build vertices and faces. [None] when numpy
    raises ([max()] of an empty array). *)
Definition triangulate (include_zeros : bool) (dem : Raster)
    : option (list vertex * list face) :=
  match raster_max dem with
  | None => None
  | Some m =>
      let z := invert dem m in
      match raster_max z with
      | None => None
      | Some ground => Some (grid_vertices z, grid_faces include_zeros z ground)
      end
  end.

(** The constant raster [np.full((r, c), v)]. *)
Definition const_raster (r c : nat) (v : Z) : Raster := mkRaster r c (fun _ _ => v).

(** A raster given by its rows, as [np.array([[...], ...])]. *)
Definition of_rows (l : list (list Z)) : Raster :=
  mkRaster (length l) (length (hd [] l)) (fun i j => nth j (nth i l []) 0).

Example triangulate_3x3 :
  option_map (fun '(vs, fs) => (length vs, length fs))
    (triangulate true (const_raster 3 3 7)) = Some (9%nat, 8%nat).
Proof. reflexivity. Qed.

Example triangulate_2x2_nozero :
  triangulate false (of_rows [[1; 2]; [3; 4]]) =
  Some ([(0, 0, 3); (1, 0, 2); (0, 1, 1); (1, 1, 0)], []).
Proof. reflexivity. Qed.

(** ** Properties of the triangulation *)

Section FlatMapUniform.
Context {A B : Type}.

Lemma length_flat_map_uniform (f : A -> list B) (c : nat) (l : list A) :
  (forall x, In x l -> length (f x) = c) ->
  length (flat_map f l) = (length l * c)%nat.
Proof.
  induction l as [|a l IH]; intros Hc; simpl; [reflexivity|].
  rewrite length_app, Hc by (left; reflexivity).
  rewrite IH by (intros x Hx; apply Hc; right; exact Hx). lia.
Qed.

Lemma nth_error_flat_map_uniform (f : A -> list B) (c : nat) (l : list A) k j :
  (forall x, In x l -> length (f x) = c) -> (j < c)%nat ->
  nth_error (flat_map f l) (k * c + j) =
  match nth_error l k with Some x => nth_error (f x) j | None => None end.
Proof.
  revert k; induction l as [|a l IH]; intros k Hc Hj.
  - destruct k; simpl; apply nth_error_nil.
  - simpl. destruct k as [|k].
    + simpl. apply nth_error_app1. rewrite Hc by (left; reflexivity). exact Hj.
    + rewrite nth_error_app2 by (rewrite Hc by (left; reflexivity); simpl; lia).
      rewrite Hc by (left; reflexivity).
      replace (S k * c + j - c)%nat with (k * c + j)%nat by (simpl; lia).
      apply IH; [intros x Hx; apply Hc; right; exact Hx | exact Hj].
Qed.
End FlatMapUniform.

Lemma length_ravel (r : Raster) : length (ravel r) = (rows r * cols r)%nat.
Proof.
  unfold ravel. rewrite (length_flat_map_uniform _ (cols r)).
  - rewrite length_seq. reflexivity.
  - intros x _. rewrite length_map, length_seq. reflexivity.
Qed.

Lemma raster_max_nonempty (r : Raster) :
  (1 <= rows r)%nat -> (1 <= cols r)%nat -> exists m, raster_max r = Some m.
Proof.
  intros Hr Hc. unfold raster_max.
  pose proof (length_ravel r) as Hl.
  destruct (ravel r) as [|x l]; [simpl in Hl; nia | eexists; reflexivity].
Qed.

Lemma length_grid_vertices (z : Raster) :
  length (grid_vertices z) = (rows z * cols z)%nat.
Proof.
  unfold grid_vertices. rewrite (length_flat_map_uniform _ (cols z)).
  - rewrite length_seq. reflexivity.
  - intros x _. rewrite length_map, length_seq. reflexivity.
Qed.

Lemma nth_error_grid_vertices (z : Raster) i j :
  (i < rows z)%nat -> (j < cols z)%nat ->
  nth_error (grid_vertices z) (i * cols z + j) =
  Some (Z.of_nat j, Z.of_nat i, px z i j).
Proof.
  intros Hi Hj. unfold grid_vertices.
  rewrite (nth_error_flat_map_uniform _ (cols z)); [| |exact Hj].
  - rewrite nth_error_seq. destruct (Nat.ltb_spec i (rows z)); [|lia].
    rewrite nth_error_map, nth_error_seq.
    destruct (Nat.ltb_spec j (cols z)); [reflexivity|lia].
  - intros x _. rewrite length_map, length_seq. reflexivity.
Qed.

Lemma length_grid_faces_all (z : Raster) (ground : Z) :
  length (grid_faces true z ground) = (2 * (rows z - 1) * (cols z - 1))%nat.
Proof.
  unfold grid_faces. rewrite (length_flat_map_uniform _ (2 * (cols z - 1))).
  - rewrite length_seq. lia.
  - intros i _. rewrite (length_flat_map_uniform _ 2).
    + rewrite length_seq. lia.
    + intros j _. unfold cell_faces. rewrite andb_false_r. reflexivity.
Qed.

(** Every face emitted while [include_zeros] is false lies in a cell none of
    whose corners is the ground level. *)
Lemma in_grid_faces_excluding (z : Raster) ground (f : face) :
  In f (grid_faces false z ground) ->
  exists i j, (i < rows z - 1)%nat /\ (j < cols z - 1)%nat /\
    existsb (Z.eqb ground)
      [px z i j; px z i (j + 1); px z (i + 1) j; px z (i + 1) (j + 1)] = false /\
    In f [(i * cols z + j, i * cols z + j + cols z, i * cols z + j + cols z + 1);
          (i * cols z + j, i * cols z + j + cols z + 1, i * cols z + j + 1)]%nat.
Proof.
  unfold grid_faces. rewrite in_flat_map. intros [i [Hi Hf]].
  rewrite in_flat_map in Hf. destruct Hf as [j [Hj Hf]].
  apply in_seq in Hi, Hj. exists i, j.
  unfold cell_faces in Hf. rewrite andb_true_r in Hf.
  destruct (existsb _ _) eqn:E; [destruct Hf|].
  repeat split; try lia; exact Hf.
Qed.

Lemma grid_vertex_at (z : Raster) i j k :
  (i < rows z)%nat -> (j < cols z)%nat -> k = (i * cols z + j)%nat ->
  nth_error (grid_vertices z) k = Some (Z.of_nat j, Z.of_nat i, px z i j).
Proof. intros Hi Hj ->. apply nth_error_grid_vertices; assumption. Qed.

(** ** Claims on the triangulation *)

(** C1. With [include_zeros = true] the triangulation of an [R x C] grid
    emits exactly [2*(R-1)*(C-1)] faces and [R*C] vertices (so a constant
    [3 x 3] raster gives 8 faces and 9 vertices); with [include_zeros =
    false] no emitted face has a corner whose inverted height equals the
    post-inversion maximum. *)
Theorem plane_from_np_faces_and_exclusion :
  (forall dem, (1 <= rows dem)%nat -> (1 <= cols dem)%nat ->
     exists vs fs, triangulate true dem = Some (vs, fs) /\
       length fs = (2 * (rows dem - 1) * (cols dem - 1))%nat /\
       length vs = (rows dem * cols dem)%nat) /\
  (forall v, exists vs fs, triangulate true (const_raster 3 3 v) = Some (vs, fs) /\
       length fs = 8%nat /\ length vs = 9%nat) /\
  (forall dem m g vs fs,
     raster_max dem = Some m -> raster_max (invert dem m) = Some g ->
     triangulate false dem = Some (vs, fs) ->
     forall a b c, In (a, b, c) fs -> forall k, In k [a; b; c] ->
       exists x y zk, nth_error vs k = Some (x, y, zk) /\ zk <> g).
Proof.
  assert (Hall : forall dem, (1 <= rows dem)%nat -> (1 <= cols dem)%nat ->
     exists vs fs, triangulate true dem = Some (vs, fs) /\
       length fs = (2 * (rows dem - 1) * (cols dem - 1))%nat /\
       length vs = (rows dem * cols dem)%nat).
  { intros dem Hr Hc. destruct (raster_max_nonempty dem Hr Hc) as [m Hm].
    destruct (raster_max_nonempty (invert dem m) Hr Hc) as [g Hg].
    unfold triangulate. rewrite Hm, Hg.
    do 2 eexists. split; [reflexivity|].
    rewrite length_grid_faces_all, length_grid_vertices. simpl. lia. }
  split; [exact Hall|]. split.
  - intros v. destruct (Hall (const_raster 3 3 v)) as [vs [fs [H [H1 H2]]]];
      simpl; try lia.
    exists vs, fs. simpl in H1, H2. repeat split; assumption.
  - intros dem m g vs fs Hm Hg Ht a b c Hf k Hk.
    unfold triangulate in Ht. rewrite Hm, Hg in Ht. injection Ht as <- <-.
    apply in_grid_faces_excluding in Hf.
    destruct Hf as [i [j [Hi [Hj [Hx Hf]]]]].
    simpl in Hx. rewrite !orb_false_iff in Hx.
    destruct Hx as [E1 [E2 [E3 [E4 _]]]]. apply Z.eqb_neq in E1, E2, E3, E4.
    simpl in Hi, Hj.
    destruct Hf as [Hf|[Hf|[]]]; injection Hf as Ha Hb Hc; subst a b c;
      destruct Hk as [<-|[<-|[<-|[]]]];
      match goal with
      | |- exists _ _ _, nth_error _ ?k = _ /\ _ =>
          first
            [ exists (Z.of_nat j), (Z.of_nat i), (px (invert dem m) i j);
              split; [apply grid_vertex_at; simpl; nia | apply not_eq_sym; exact E1]
            | exists (Z.of_nat (j + 1)), (Z.of_nat i), (px (invert dem m) i (j + 1));
              split; [apply grid_vertex_at; simpl; nia | apply not_eq_sym; exact E2]
            | exists (Z.of_nat j), (Z.of_nat (i + 1)), (px (invert dem m) (i + 1) j);
              split; [apply grid_vertex_at; simpl; nia | apply not_eq_sym; exact E3]
            | exists (Z.of_nat (j + 1)), (Z.of_nat (i + 1)), (px (invert dem m) (i + 1) (j + 1));
              split; [apply grid_vertex_at; simpl; nia | apply not_eq_sym; exact E4] ]
      end.
Qed.

Lemma ravel_invert (dem : Raster) m :
  ravel (invert dem m) = map (fun x => m - x) (ravel dem).
Proof.
  unfold ravel, invert. simpl. induction (seq 0 (rows dem)) as [|i l IH];
    simpl; [reflexivity|].
  rewrite map_app, map_map, IH. reflexivity.
Qed.

Lemma fold_max_neg (m : Z) (l : list Z) (x : Z) :
  fold_left Z.max (map (fun y => m - y) l) (m - x) = m - fold_left Z.min l x.
Proof.
  revert x; induction l as [|a l IH]; intros x; simpl; [reflexivity|].
  replace (Z.max (m - x) (m - a)) with (m - Z.min x a) by lia. apply IH.
Qed.

(** After the inversion by its own maximum [m], the ground level of a raster
    is [m - min(raster)]. *)
Lemma ground_of_invert (dem : Raster) m lo :
  raster_min dem = Some lo -> raster_max (invert dem m) = Some (m - lo).
Proof.
  unfold raster_min, raster_max. rewrite ravel_invert.
  destruct (ravel dem) as [|x l]; [discriminate|]. intros [= <-].
  simpl. rewrite fold_max_neg. reflexivity.
Qed.

(** The ground sentinel marks the pixels of minimal elevation; it marks the
    zero pixels exactly when the raster contains a zero. *)
Lemma ground_iff_min (dem : Raster) m lo i j :
  raster_min dem = Some lo ->
  (px (invert dem m) i j = m - lo <-> px dem i j = lo).
Proof. intros _. simpl. lia. Qed.

(** ** cv2 primitives on rasters *)

(** [cv2.add] on two [uint8] arrays: pixelwise sum saturated to [0, 255];
    arrays of different shapes raise. *)
Definition sat_u8 (x : Z) : Z := Z.max 0 (Z.min 255 x).

Definition cv2_add (a b : Raster) : option Raster :=
  if Nat.eqb (rows a) (rows b) && Nat.eqb (cols a) (cols b)
  then Some (mkRaster (rows a) (cols a) (fun i j => sat_u8 (px a i j + px b i j)))
  else None.

(** The indices [i - k .. i + k] of a [(2k+1)]-wide structuring element that
    fall inside [0 .. n - 1]. *)
Definition window (n i k : nat) : list nat :=
  filter (fun x => Nat.ltb x n) (seq (i - k) (i + k + 1 - (i - k))).

(** One pass of [cv2.erode]/[cv2.dilate] with the kernel [np.ones((2k+1, 2k+1))]
    and OpenCV's default border: out-of-image neighbours take the value
    [border], the neutral element of [op] on the array's dtype. *)
Definition morph (op : Z -> Z -> Z) (border : Z) (k : nat) (r : Raster) : Raster :=
  mkRaster (rows r) (cols r)
    (fun i j => fold_right op border
       (flat_map (fun a => map (fun b => px r a b) (window (cols r) j k))
                 (window (rows r) i k))).

(** [cv2.erode(img, np.ones((2k+1, 2k+1)), iterations=it)] on a [uint8] image. *)
Definition erode (k it : nat) (r : Raster) : Raster :=
  Nat.iter it (morph Z.min 255 k) r.

(** [cv2.dilate(img, np.ones((2k+1, 2k+1)), iterations=it)] on an unsigned image. *)
Definition dilate (k it : nat) (r : Raster) : Raster :=
  Nat.iter it (morph Z.max 0 k) r.

(** [(img == v).astype(np.uint8)] *)
Definition eq_mask (v : Z) (r : Raster) : Raster :=
  mkRaster (rows r) (cols r) (fun i j => if px r i j =? v then 1 else 0).

(** [np.count_nonzero]-style count of the pixels satisfying [p]. *)
Definition count_px (p : Z -> bool) (r : Raster) : nat :=
  length (filter p (ravel r)).

Definition nonzero (v : Z) : bool := negb (v =? 0).

(** ** Water mask compositing ([create_background_textures], lines 507-511) *)

Fixpoint merge_layers (acc : Raster) (layers : list Raster) : option Raster :=
  match layers with
  | [] => Some acc
  | l :: ls =>
      match cv2_add acc l with
      | None => None
      | Some acc' => merge_layers acc' ls
      end
  end.

(** [background_image = np.zeros((size, size), np.uint8)], then
    [background_image = cv2.add(background_image, layer)] for each layer. *)
Definition composite (background_size : nat) (layers : list Raster) : option Raster :=
  merge_layers (const_raster background_size background_size 0) layers.

(** ** Depth subtraction ([Background.subtraction], lines 524-537) *)

Definition u16_modulus : Z := 2 ^ 16.

(** [mask = cv2.erode((water == 255).astype(np.uint8), np.ones((3, 3)), 1)],
    then [dem[mask] = dem[mask] - water_depth] on the [uint16] DEM. The
    [uint16] subtraction wraps modulo [2^16]; a Python [int] depth outside the
    [uint16] range raises [OverflowError] (NumPy 2 promotion rules), and a
    mask of another shape than the DEM raises [IndexError]. *)
Definition subtract_depth (water dem : Raster) (depth : Z) : option Raster :=
  let mask := erode 1 1 (eq_mask 255 water) in
  if negb (Nat.eqb (rows mask) (rows dem) && Nat.eqb (cols mask) (cols dem)) then None
  else if negb ((0 <=? depth) && (depth <? u16_modulus)) then None
  else Some (mkRaster (rows dem) (cols dem)
         (fun i j => if px mask i j =? 0 then px dem i j
                     else (px dem i j - depth) mod u16_modulus)).

(** The water mask of value 255 on the [s x s] square at offset [(o, o)]. *)
Definition square_mask (n o s : nat) : Raster :=
  mkRaster n n (fun i j => if Nat.leb o i && Nat.ltb i (o + s) &&
                              Nat.leb o j && Nat.ltb j (o + s) then 255 else 0).

Example subtract_depth_small :
  option_map (fun r => map (fun i => map (fun j => px r i j) (seq 0 5)) (seq 0 5))
    (subtract_depth (square_mask 5 1 3) (const_raster 5 5 1000) 50) =
  Some [[1000; 1000; 1000; 1000; 1000]; [1000; 1000; 1000; 1000; 1000];
        [1000; 1000; 950; 1000; 1000]; [1000; 1000; 1000; 1000; 1000];
        [1000; 1000; 1000; 1000; 1000]].
Proof. reflexivity. Qed.

(** ** Counting pixels *)

Definition ind (b : bool) : nat := if b then 1%nat else 0%nat.

Lemma length_filter_sum (p : Z -> bool) (l : list Z) :
  length (filter p l) = list_sum (map (fun x => ind (p x)) l).
Proof. induction l as [|x l IH]; simpl; [reflexivity|]. destruct (p x); simpl; lia. Qed.

Lemma count_px_sum (p : Z -> bool) (r : Raster) :
  count_px p r =
  list_sum (map (fun i => list_sum (map (fun j => ind (p (px r i j))) (seq 0 (cols r))))
                (seq 0 (rows r))).
Proof.
  unfold count_px, ravel. rewrite length_filter_sum.
  induction (seq 0 (rows r)) as [|i l IH]; simpl; [reflexivity|].
  rewrite map_app, list_sum_app, IH, map_map. reflexivity.
Qed.

Lemma list_sum_map_add {A} (l : list A) (f g h : A -> nat) :
  (forall x, In x l -> h x = (f x + g x)%nat) ->
  list_sum (map h l) = (list_sum (map f l) + list_sum (map g l))%nat.
Proof.
  induction l as [|x l IH]; intros H; simpl; [reflexivity|].
  rewrite H by (left; reflexivity). rewrite IH by (intros y Hy; apply H; right; exact Hy).
  lia.
Qed.

(** Counting is additive over a pixelwise decomposition of the predicate. *)
Lemma count_px_additive (p : Z -> bool) (a b c : Raster) :
  rows a = rows c -> cols a = cols c -> rows b = rows c -> cols b = cols c ->
  (forall i j, (i < rows c)%nat -> (j < cols c)%nat ->
     ind (p (px c i j)) = (ind (p (px a i j)) + ind (p (px b i j)))%nat) ->
  count_px p c = (count_px p a + count_px p b)%nat.
Proof.
  intros Hra Hca Hrb Hcb H. rewrite !count_px_sum, Hra, Hca, Hrb, Hcb.
  apply list_sum_map_add. intros i Hi. apply list_sum_map_add. intros j Hj.
  apply in_seq in Hi, Hj. apply H; lia.
Qed.

Lemma composite_two (n : nat) (a b : Raster) :
  rows a = n -> cols a = n -> rows b = n -> cols b = n ->
  composite n [a; b] =
  Some (mkRaster n n (fun i j => sat_u8 (sat_u8 (0 + px a i j) + px b i j))).
Proof.
  intros Hra Hca Hrb Hcb. unfold composite, merge_layers, cv2_add. simpl.
  rewrite Hra, Hca, !Nat.eqb_refl. simpl. rewrite Hrb, Hcb, !Nat.eqb_refl. reflexivity.
Qed.

(** ** Claim on the water mask compositing *)

(** C5. Compositing two single-layer [uint8] rasters adds them pixelwise with
    saturation at 255: with disjoint marked pixels, the marked-pixel count
    (non-zero pixels, and pixels equal to 255) of the composite is the sum
    of the inputs' counts; every pixel is [min(255, a + b)], so overlapping
    marks saturate and never wrap. *)
Theorem composite_disjoint_counts_and_saturation (n : nat) (a b : Raster) :
  rows a = n -> cols a = n -> rows b = n -> cols b = n ->
  (forall i j, (i < n)%nat -> (j < n)%nat ->
     0 <= px a i j <= 255 /\ 0 <= px b i j <= 255) ->
  exists c, composite n [a; b] = Some c /\ rows c = n /\ cols c = n /\
    (forall i j, (i < n)%nat -> (j < n)%nat ->
       px c i j = Z.min 255 (px a i j + px b i j)) /\
    ((forall i j, (i < n)%nat -> (j < n)%nat -> px a i j = 0 \/ px b i j = 0) ->
     count_px nonzero c = (count_px nonzero a + count_px nonzero b)%nat /\
     count_px (Z.eqb 255) c = (count_px (Z.eqb 255) a + count_px (Z.eqb 255) b)%nat).
Proof.
  intros Hra Hca Hrb Hcb Hv. rewrite (composite_two n a b Hra Hca Hrb Hcb).
  eexists. split; [reflexivity|]. cbn [rows cols px]. split; [reflexivity|]. split; [reflexivity|].
  assert (Hpx : forall i j, (i < n)%nat -> (j < n)%nat ->
            sat_u8 (sat_u8 (0 + px a i j) + px b i j) = Z.min 255 (px a i j + px b i j)).
  { intros i j Hi Hj. destruct (Hv i j Hi Hj). unfold sat_u8. lia. }
  split; [exact Hpx|]. intros Hd.
  split; apply count_px_additive; cbn [rows cols px]; try congruence;
    intros i j Hi Hj; rewrite Hpx by assumption;
    destruct (Hd i j Hi Hj) as [E|E]; rewrite E;
    destruct (Hv i j Hi Hj) as [Ha Hb];
    [replace (Z.min 255 (0 + px b i j)) with (px b i j) by lia
    |replace (Z.min 255 (px a i j + 0)) with (px a i j) by lia
    |replace (Z.min 255 (0 + px b i j)) with (px b i j) by lia
    |replace (Z.min 255 (px a i j + 0)) with (px a i j) by lia];
    simpl; lia.
Qed.

(** ** Erosion of a square water mask *)

Lemma in_window n i k x :
  In x (window n i k) <-> (i - k <= x <= i + k /\ x < n)%nat.
Proof. unfold window. rewrite filter_In, in_seq, Nat.ltb_lt. lia. Qed.

Lemma in_morph_list (r : Raster) i j k v :
  In v (flat_map (fun a => map (fun b => px r a b) (window (cols r) j k))
                 (window (rows r) i k)) <->
  exists a b, In a (window (rows r) i k) /\ In b (window (cols r) j k) /\ v = px r a b.
Proof.
  rewrite in_flat_map. split.
  - intros [a [Ha Hv]]. apply in_map_iff in Hv. destruct Hv as [b [<- Hb]].
    exists a, b. auto.
  - intros [a [b [Ha [Hb ->]]]]. exists a. split; [exact Ha|].
    apply in_map. exact Hb.
Qed.

Lemma fold_min_nonneg (l : list Z) :
  (forall x, In x l -> 0 <= x) -> 0 <= fold_right Z.min 255 l.
Proof.
  induction l as [|x l IH]; intros H; simpl; [lia|].
  specialize (H x (or_introl eq_refl)) as Hx.
  assert (0 <= fold_right Z.min 255 l) by (apply IH; intros y Hy; apply H; right; exact Hy).
  lia.
Qed.

Lemma fold_min_has_zero (l : list Z) :
  (forall x, In x l -> 0 <= x) -> In 0 l -> fold_right Z.min 255 l = 0.
Proof.
  induction l as [|x l IH]; intros H Hin; [destruct Hin|]. simpl.
  assert (0 <= fold_right Z.min 255 l)
    by (apply fold_min_nonneg; intros y Hy; apply H; right; exact Hy).
  destruct Hin as [Hx|Hin]; [subst x; lia|].
  rewrite IH by (exact Hin || (intros y Hy; apply H; right; exact Hy)).
  specialize (H x (or_introl eq_refl)). lia.
Qed.

Lemma fold_min_all_one (l : list Z) :
  (forall x, In x l -> x = 1) -> l <> [] -> fold_right Z.min 255 l = 1.
Proof.
  induction l as [|x l IH]; intros H Hne; [congruence|]. simpl.
  rewrite (H x (or_introl eq_refl)).
  destruct l as [|y l]; [reflexivity|].
  rewrite IH; [reflexivity | intros z Hz; apply H; right; exact Hz | discriminate].
Qed.

Lemma square_mask_bit n o s a b :
  px (eq_mask 255 (square_mask n o s)) a b =
  if Nat.leb o a && Nat.ltb a (o + s) && Nat.leb o b && Nat.ltb b (o + s) then 1 else 0.
Proof. simpl. destruct (_ && _); reflexivity. Qed.

Lemma square_mask_bit_in n o s a b :
  (o <= a < o + s)%nat -> (o <= b < o + s)%nat ->
  px (eq_mask 255 (square_mask n o s)) a b = 1.
Proof.
  intros Ha Hb. rewrite square_mask_bit.
  destruct (Nat.leb_spec o a), (Nat.ltb_spec a (o + s)), (Nat.leb_spec o b),
           (Nat.ltb_spec b (o + s)); simpl; lia.
Qed.

Lemma square_mask_bit_out n o s a b :
  ~ ((o <= a < o + s)%nat /\ (o <= b < o + s)%nat) ->
  px (eq_mask 255 (square_mask n o s)) a b = 0.
Proof.
  intros H. rewrite square_mask_bit.
  destruct (Nat.leb_spec o a), (Nat.ltb_spec a (o + s)), (Nat.leb_spec o b),
           (Nat.ltb_spec b (o + s)); simpl; lia.
Qed.

Lemma erode1_px (r : Raster) i j :
  px (erode 1 1 r) i j =
  fold_right Z.min 255
    (flat_map (fun a => map (fun b => px r a b) (window (cols r) j 1)) (window (rows r) i 1)).
Proof. reflexivity. Qed.

(** One erosion pass with a 3x3 kernel removes exactly the one-pixel ring of
    a square lying strictly inside the image. *)
Lemma erode_square_inner n o s i j :
  (o + s <= n)%nat -> (o + 1 <= i < o + s - 1)%nat -> (o + 1 <= j < o + s - 1)%nat ->
  px (erode 1 1 (eq_mask 255 (square_mask n o s))) i j = 1.
Proof.
  intros Hn Hi Hj. rewrite erode1_px.
  set (m := eq_mask 255 (square_mask n o s)).
  assert (Hr : rows m = n) by reflexivity. assert (Hc : cols m = n) by reflexivity.
  apply fold_min_all_one.
  - intros v Hv. apply in_morph_list in Hv.
    destruct Hv as [a [b [Ha [Hb ->]]]]. rewrite Hr, Hc, in_window in *.
    apply square_mask_bit_in; lia.
  - intros He. assert (Hin : In (px m i j)
      (flat_map (fun a => map (fun b => px m a b) (window (cols m) j 1)) (window (rows m) i 1))).
    { apply in_morph_list. exists i, j. rewrite Hr, Hc, !in_window. repeat split; lia. }
    rewrite He in Hin. destruct Hin.
Qed.

Lemma erode_square_outer n o s i j :
  (1 <= o)%nat -> (o + s < n)%nat -> (i < n)%nat -> (j < n)%nat ->
  ~ ((o + 1 <= i < o + s - 1)%nat /\ (o + 1 <= j < o + s - 1)%nat) ->
  px (erode 1 1 (eq_mask 255 (square_mask n o s))) i j = 0.
Proof.
  intros Ho Hn Hi Hj Hout. rewrite erode1_px.
  set (m := eq_mask 255 (square_mask n o s)).
  assert (Hr : rows m = n) by reflexivity. assert (Hc : cols m = n) by reflexivity.
  apply fold_min_has_zero.
  - intros v Hv. apply in_morph_list in Hv.
    destruct Hv as [a [b [_ [_ ->]]]]. unfold m. rewrite square_mask_bit.
    destruct (_ && _); lia.
  - assert (Hz : exists a b, (i - 1 <= a <= i + 1)%nat /\ (a < n)%nat /\
                   (j - 1 <= b <= j + 1)%nat /\ (b < n)%nat /\
                   ~ ((o <= a < o + s)%nat /\ (o <= b < o + s)%nat)).
    { destruct (Nat.lt_ge_cases i o); [exists i, j; repeat split; lia|].
      destruct (Nat.lt_ge_cases j o); [exists i, j; repeat split; lia|].
      destruct (Nat.le_gt_cases (o + s) i); [exists i, j; repeat split; lia|].
      destruct (Nat.le_gt_cases (o + s) j); [exists i, j; repeat split; lia|].
      destruct (Nat.eq_dec i o); [exists (i - 1)%nat, j; repeat split; lia|].
      destruct (Nat.eq_dec j o); [exists i, (j - 1)%nat; repeat split; lia|].
      destruct (Nat.eq_dec i (o + s - 1)); [exists (i + 1)%nat, j; repeat split; lia|].
      destruct (Nat.eq_dec j (o + s - 1)); [exists i, (j + 1)%nat; repeat split; lia|].
      exfalso. apply Hout. lia. }
    destruct Hz as [a [b [Ha1 [Ha2 [Hb1 [Hb2 Hab]]]]]].
    rewrite <- (square_mask_bit_out n o s a b Hab).
    apply in_morph_list. exists a, b. rewrite Hr, Hc, !in_window. repeat split; lia.
Qed.

(** ** Claims on the depth subtraction *)

Lemma subtract_depth_ok (water dem : Raster) (d : Z) :
  rows water = rows dem -> cols water = cols dem -> 0 <= d < u16_modulus ->
  subtract_depth water dem d =
  Some (mkRaster (rows dem) (cols dem)
    (fun i j => if px (erode 1 1 (eq_mask 255 water)) i j =? 0 then px dem i j
                else (px dem i j - d) mod u16_modulus)).
Proof.
  intros Hr Hc Hd. unfold subtract_depth. cbv zeta.
  change (rows (erode 1 1 (eq_mask 255 water))) with (rows water).
  change (cols (erode 1 1 (eq_mask 255 water))) with (cols water).
  rewrite Hr, Hc, !Nat.eqb_refl. simpl negb. cbv iota.
  destruct (Z.leb_spec 0 d), (Z.ltb_spec d u16_modulus); try lia. reflexivity.
Qed.

(** C2 (as the code has it). For a water depth [0 < d < 2^16] and a mask of the
    DEM's shape, the subtraction does not raise; a pixel outside the eroded
    mask is unchanged, a selected pixel [e >= d] becomes [e - d], and a
    selected pixel [e < d] wraps around to [e - d + 2^16] (the [uint16]
    arithmetic of the array; there is no clamping). *)
Theorem subtraction_uint16_wraparound (water dem : Raster) (d : Z) :
  rows water = rows dem -> cols water = cols dem -> 0 < d < u16_modulus ->
  exists r, subtract_depth water dem d = Some r /\
    rows r = rows dem /\ cols r = cols dem /\
    forall i j, 0 <= px dem i j < u16_modulus ->
      let selected := negb (px (erode 1 1 (eq_mask 255 water)) i j =? 0) in
      (selected = false -> px r i j = px dem i j) /\
      (selected = true -> d <= px dem i j -> px r i j = px dem i j - d) /\
      (selected = true -> px dem i j < d -> px r i j = px dem i j - d + u16_modulus).
Proof.
  intros Hr Hc Hd. rewrite subtract_depth_ok by (assumption || lia).
  eexists. split; [reflexivity|]. split; [reflexivity|]. split; [reflexivity|].
  intros i j He selected. cbn [px]. unfold selected.
  destruct (px (erode 1 1 (eq_mask 255 water)) i j =? 0); simpl;
    (split; [intros H; try discriminate; reflexivity|split]); intros H; try discriminate;
    intros Hlt.
  - rewrite Z.mod_small; lia.
  - replace (px dem i j - d) with ((px dem i j - d + u16_modulus) + (-1) * u16_modulus)
      by ring.
    rewrite Z.mod_add by (unfold u16_modulus; lia). rewrite Z.mod_small; lia.
Qed.

(** C2, as the claim states it, fails: a fully submerged pixel of elevation
    10 under a depth of 50 becomes 65496, not 0. *)
Lemma subtraction_wraps_not_clamps :
  px (erode 1 1 (eq_mask 255 (const_raster 3 3 255))) 1 1 = 1 /\
  exists r, subtract_depth (const_raster 3 3 255) (const_raster 3 3 10) 50 = Some r /\
    px r 1 1 = 65496 /\ px r 1 1 <> 0.
Proof.
  split; [reflexivity|]. eexists. split; [reflexivity|]. split; [reflexivity|].
  cbn. discriminate.
Qed.

(** C6. A flat [1025 x 1025] DEM of height 1000, a water depth of 50 and a
    water mask of 255 on the centered [100 x 100] square (offset
    [(1025 - 100) / 2 = 462]): the eroded interior of the square (rows and
    columns 463..560) drops to 950, the one-pixel ring of the square and
    everything outside it stay at 1000. *)
Theorem subtraction_centered_square_scenario :
  exists r, subtract_depth (square_mask 1025 462 100) (const_raster 1025 1025 1000) 50
            = Some r /\ rows r = 1025%nat /\ cols r = 1025%nat /\
    (forall i j, (463 <= i <= 560)%nat -> (463 <= j <= 560)%nat -> px r i j = 950) /\
    (forall i j, (i < 1025)%nat -> (j < 1025)%nat ->
       ~ ((463 <= i <= 560)%nat /\ (463 <= j <= 560)%nat) -> px r i j = 1000).
Proof.
  rewrite subtract_depth_ok by (reflexivity || (unfold u16_modulus; lia)).
  eexists. split; [reflexivity|]. split; [reflexivity|]. split; [reflexivity|].
  cbn [px rows cols const_raster]. split.
  - intros i j Hi Hj. rewrite erode_square_inner by lia. reflexivity.
  - intros i j Hi Hj Hout. rewrite erode_square_outer by lia. reflexivity.
Qed.

(** C3 (the code at a raster without zero pixels). The ground sentinel
    [z.max()] is [max - min] of the raster: on [[1, 2], [3, 4]] it marks the
    pixel of elevation 1, which is not zero, and with [include_zeros=False]
    the only cell of the grid is skipped although none of its corners is
    zero. *)
Theorem plane_from_np_sentinel_marks_minimum :
  let dem := of_rows [[1; 2]; [3; 4]] in
  existsb (Z.eqb 0) (ravel dem) = false /\
  raster_max dem = Some 4 /\ raster_max (invert dem 4) = Some 3 /\
  px dem 0 0 = 1 /\ px (invert dem 4) 0 0 = 3 /\
  (exists vs, triangulate false dem = Some (vs, [])) /\
  (exists vs, triangulate true dem = Some (vs, [(0, 2, 3); (0, 3, 1)]%nat)).
Proof.
  cbv zeta. repeat split; try reflexivity; eexists; reflexivity.
Qed.

(** ** The cutout utility (ImageComponent.cut_out_np) *)

Inductive CutMode := ReturnCutout | SetZeros.

(** Modelled from the spec: [ImageComponent.cut_out_np], which is not part of
    the sources. Section 4.1: the center pixel is [(rows // 2, cols // 2)];
    [return_cutout] extracts the square of side [2 * half_size] centered
    there, [set_zeros] writes 0 over that square; it fails when the square
    leaves the raster. *)
Definition cut_out_np (r : Raster) (half_size : nat) (mode : CutMode) : option Raster :=
  let cy := Nat.div (rows r) 2 in
  let cx := Nat.div (cols r) 2 in
  if Nat.ltb cy half_size || Nat.ltb cx half_size ||
     Nat.ltb (rows r) (cy + half_size) || Nat.ltb (cols r) (cx + half_size)
  then None
  else match mode with
  | ReturnCutout =>
      Some (mkRaster (2 * half_size) (2 * half_size)
              (fun i j => px r (cy - half_size + i) (cx - half_size + j)))
  | SetZeros =>
      Some (mkRaster (rows r) (cols r)
              (fun i j => if Nat.leb (cy - half_size) i && Nat.ltb i (cy + half_size) &&
                             Nat.leb (cx - half_size) j && Nat.ltb j (cx + half_size)
                          then 0 else px r i j))
  end.

(** ** Elevated water input ([generate_water_resources_obj], lines 558-570) *)

(** [background_dem[plane_water == 0] = 0] *)
Definition zero_non_water (background_dem plane_water : Raster) : Raster :=
  mkRaster (rows background_dem) (cols background_dem)
    (fun i j => if px plane_water i j =? 0 then 0 else px background_dem i j).

(** The masking raises when the shapes differ;
    [elevated = cv2.dilate(background_dem, np.ones((3, 3)), iterations=10)],
    [np.where(background_dem > 0, background_dem, elevated)]. *)
Definition elevated_water_input (background_dem plane_water : Raster) : option Raster :=
  if Nat.eqb (rows plane_water) (rows background_dem) &&
     Nat.eqb (cols plane_water) (cols background_dem)
  then
    let zeroed := zero_non_water background_dem plane_water in
    let elevated := dilate 1 10 zeroed in
    Some (mkRaster (rows background_dem) (cols background_dem)
            (fun i j => if 0 <? px zeroed i j then px zeroed i j else px elevated i j))
  else None.

(** ** Configuration and file store *)

(** A layer of the texture schema ([layer.get("background") is True] is
    [background = Some true]). *)
Record Layer := mkLayer {
  layer_name : string;
  background : option bool;
  layer_count : nat
}.

(** The settings the component reads from [self.map] and [self.game]. *)
Record Config := mkConfig {
  map_size : nat;
  background_size : nat;
  water_depth : Z;
  resize_factor : Q;               (* background_settings.resize_factor *)
  generate_background : bool;
  generate_water : bool;
  remove_center : bool;
  apply_decimation : bool;
  decimation_percent : Q;
  decimation_agression : nat;
  custom_background : bool;        (* map.custom_background_path is set *)
  additional_dem_name : option string;
  dem_file_path : string;          (* game.dem_file_path(map_directory) *)
  texture_schema : option (list Layer) (* None: the schema file is absent *)
}.

(** Paths, relative to the map directory. *)
Definition output_path : string := "background/full.png".
Definition not_substracted_path : string := "background/not_substracted.png".
Definition not_resized_path : string := "background/not_resized.png".
Definition background_obj_path : string := "background/full.obj".
Definition water_resources_png : string := "water/water_resources.png".
Definition plane_water_path : string := "water/plane_water.obj".
Definition elevated_water_path : string := "water/elevated_water.obj".
Definition stl_preview_file : string := "previews/background_dem.stl".

(** The part of a reversed path up to its last slash ([p[:p.rfind('/') + 1]]). *)
Fixpoint skip_base (r : list Ascii.ascii) : list Ascii.ascii :=
  match r with
  | [] => []
  | c :: t => if Ascii.eqb c "/"%char then r else skip_base t
  end.

(** [rstrip('/')] on a reversed path. *)
Fixpoint strip_slashes (r : list Ascii.ascii) : list Ascii.ascii :=
  match r with
  | [] => []
  | c :: t => if Ascii.eqb c "/"%char then strip_slashes t else r
  end.

(** [posixpath.dirname]: [head = p[:p.rfind('/') + 1]], whose trailing
    slashes are stripped unless it is empty or made of slashes only. *)
Definition py_dirname (path : string) : string :=
  let head := skip_base (List.rev (list_ascii_of_string path)) in
  let head := if forallb (fun c => Ascii.eqb c "/"%char) head then head
              else strip_slashes head in
  string_of_list_ascii (List.rev head).

(** [posixpath.join(a, b)]: an absolute [b] replaces [a]; otherwise a slash
    is inserted unless [a] is empty or already ends in one. *)
Definition py_join (a b : string) : string :=
  if String.prefix "/" b then b
  else if String.eqb a "" || Ascii.eqb (last (list_ascii_of_string a) "/"%char) "/"%char
  then (a ++ b)%string
  else (a ++ "/" ++ b)%string.

(** [os.path.join(os.path.dirname(path), name)] *)
Definition join_dirname (path name : string) : string :=
  py_join (py_dirname path) name.

Example join_dirname_ex :
  join_dirname "map/data/dem.png" "unprocessedHeightMap.png" =
  "map/data/unprocessedHeightMap.png"%string.
Proof. reflexivity. Qed.

Example join_dirname_root_and_absolute :
  join_dirname "/x.png" "n.png" = "/n.png"%string /\
  join_dirname "x.png" "n.png" = "n.png"%string /\
  join_dirname "map//data//dem.png" "n.png" = "map//data/n.png"%string /\
  join_dirname "map/data/dem.png" "/abs/n.png" = "/abs/n.png"%string.
Proof. repeat split; reflexivity. Qed.

(** Rotation by pi about a coordinate axis
    ([trimesh.transformations.rotation_matrix(np.pi, axis)]). *)
Inductive Axis := AxisY | AxisZ.

(** The collaborators of the component that are outside this module: the
    trimesh mesh operations, the cv2 resampling, the z-scaling factor of the
    [MeshComponent] base class, the texture classifier and the elevation
    provider. *)
Class Externals := {
  Mesh : Type;
  Trimesh : list vertex -> list face -> Mesh;
  apply_transform : Axis -> Mesh -> Mesh;
  apply_scale : Q * Q * Q -> Mesh -> Mesh;
  (** [simplify_quadric_decimation(percent=, aggression=)] *)
  simplify_percent : Q -> nat -> Mesh -> Mesh;
  (** [simplify_quadric_decimation(face_count=)] *)
  simplify_face_count : nat -> Mesh -> Mesh;
  (** [len(mesh.faces)] *)
  face_count : Mesh -> nat;
  (** [cv2.resize(img, (0, 0), fx=f, fy=f)] *)
  resize_fx : Q -> Raster -> Raster;
  (** pixel values of [cv2.resize(img, (w, h), interpolation=cv2.INTER_LINEAR)] *)
  linear_resample : Raster -> nat -> nat -> nat -> nat -> Z;
  (** [MeshComponent.get_z_scaling_factor()] *)
  z_scaling_factor : Q;
  (** the rasters the texture classifier writes for the given background
      layers ([Texture.process], [get_background_layers], [cv2.imread]) *)
  texture_layers : list Layer -> list Raster;
  (** the raster [DEM.process] writes at [dem_path] *)
  dem_download : Raster
}.

Section Component.
Context `{Externals} (cfg : Config).

(** [cv2.resize(img, (w, h), interpolation=cv2.INTER_LINEAR)]: the result has
    exactly the requested shape. *)
Definition cv2_resize_linear (r : Raster) (w h : nat) : Raster :=
  mkRaster h w (linear_resample r w h).

Inductive File := FRaster (r : Raster) | FMesh (m : Mesh).

(** Observable effects, in order: file writes (with their content), file
    removals and logged warnings. *)
Inductive Event :=
  | Wrote (path : string) (f : File)
  | Removed (path : string)
  | Warning (msg : string).

Record World := mkWorld {
  fs : string -> option File;
  log : list Event;
  water_resources_path : option string;
  stl_preview_path : option string
}.

Inductive Exn := FileNotFoundError (path : string) | RuntimeError.

Inductive Res (A : Type) :=
  | Ok (a : A) (w : World)
  | Raise (e : Exn) (w : World).
Arguments Ok {A}. Arguments Raise {A}.

Definition M (A : Type) : Type := World -> Res A.

Definition ret {A} (a : A) : M A := fun w => Ok a w.
Definition bind {A B} (m : M A) (k : A -> M B) : M B :=
  fun w => match m w with Ok a w' => k a w' | Raise e w' => Raise e w' end.

Notation "x <- m ;; k" := (bind m (fun x => k)) (at level 61, m at next level, right associativity).
Notation "m ;;; k" := (bind m (fun _ => k)) (at level 61, right associativity).

(** A numpy/cv2 call that raises on [None]. *)
Definition lift {A} (o : option A) : M A :=
  fun w => match o with Some a => Ok a w | None => Raise RuntimeError w end.

Definition upd (f : string -> option File) (p : string) (v : option File) :=
  fun q => if String.eqb q p then v else f q.

Definition write_file (p : string) (f : File) : M unit :=
  fun w => Ok tt (mkWorld (upd (fs w) p (Some f)) (log w ++ [Wrote p f])
                          (water_resources_path w) (stl_preview_path w)).

Definition warning (msg : string) : M unit :=
  fun w => Ok tt (mkWorld (fs w) (log w ++ [Warning msg])
                          (water_resources_path w) (stl_preview_path w)).

Definition is_file (p : string) : M bool :=
  fun w => Ok (match fs w p with Some _ => true | None => false end) w.

(** [cv2.imread(p, cv2.IMREAD_UNCHANGED)], followed by a numpy use of the
    result (which raises on [None]). *)
Definition imread (p : string) : M Raster :=
  fun w => match fs w p with Some (FRaster r) => Ok r w | _ => Raise RuntimeError w end.

(** [shutil.copyfile(src, dst)] *)
Definition copyfile (src dst : string) : M unit :=
  fun w => match fs w src with
           | Some f => write_file dst f w
           | None => Raise (FileNotFoundError src) w
           end.

(** [try: os.remove(p) except FileNotFoundError: pass] *)
Definition remove_if_exists (p : string) : M unit :=
  fun w => match fs w p with
           | Some _ => Ok tt (mkWorld (upd (fs w) p None) (log w ++ [Removed p])
                                      (water_resources_path w) (stl_preview_path w))
           | None => Ok tt w
           end.

Definition set_water_resources_path (p : string) : M unit :=
  fun w => Ok tt (mkWorld (fs w) (log w) (Some p) (stl_preview_path w)).

Definition set_stl_preview_path (p : string) : M unit :=
  fun w => Ok tt (mkWorld (fs w) (log w) (water_resources_path w) (Some p)).

Definition get_water_resources_path : M (option string) :=
  fun w => Ok (water_resources_path w) w.

(** ** Methods of [Background] *)

(** Python's [int()] on a float: truncation toward zero. *)
Definition py_int (q : Q) : Z := if Qle_bool 0 q then Qfloor q else - Qfloor (- q).

(** The mesh [plane_from_np] exports (lines 248-328): resize by
    [1 / resize_factor], optionally zero the center, triangulate, rotate by
    pi about Y then Z, scale by [(1 / f, 1 / f, z_scaling_factor)] with
    [f = 1 / resize_factor], optionally decimate. [None] where the code
    raises: an empty grid, a center cut out of bounds, or the decimation
    report dividing by a face count of 0. *)
Definition plane_mesh (dem : Raster) (include_zeros remove_center : bool) : option Mesh :=
  let rf := Qinv (resize_factor cfg) in
  let dem1 := resize_fx rf dem in
  let dem2 :=
    if remove_center
    then cut_out_np dem1
           (Z.to_nat (py_int (inject_Z (Z.of_nat (Nat.div (map_size cfg) 2)) * rf)))
           SetZeros
    else Some dem1 in
  match dem2 with
  | None => None
  | Some dem2 =>
      match triangulate include_zeros dem2 with
      | None => None
      | Some (vertices, faces) =>
          let mesh := Trimesh vertices faces in
          let mesh := apply_transform AxisY mesh in
          let mesh := apply_transform AxisZ mesh in
          let mesh := apply_scale (Qinv rf, Qinv rf, z_scaling_factor) mesh in
          let old_faces := face_count mesh in
          if apply_decimation cfg then
            let mesh := simplify_percent (decimation_percent cfg / 100)
                          (decimation_agression cfg) mesh in
            if Nat.eqb old_faces 0 then None else Some mesh
          else Some mesh
      end
  end.

(** [Background.mesh_to_stl] *)
Definition mesh_to_stl (mesh : Mesh) : M unit :=
  let mesh := simplify_face_count (Nat.div (face_count mesh) (2 ^ 6)) mesh in
  write_file stl_preview_file (FMesh mesh) ;;;
  set_stl_preview_path stl_preview_file.

(** [Background.plane_from_np]: export, then the preview. *)
Definition plane_from_np (dem : Raster) (save_path : string)
    (include_zeros create_preview remove_center : bool) : M unit :=
  mesh <- lift (plane_mesh dem include_zeros remove_center) ;;
  write_file save_path (FMesh mesh) ;;;
  if create_preview
  then mesh_to_stl (apply_scale (1 # 2, 1 # 2, 1 # 2) mesh)
  else ret tt.

Definition is_background (l : Layer) : bool :=
  match background l with Some true => true | _ => false end.

(** [layer_copy = deepcopy(layer); layer_copy["count"] = 1;
    layer_copy["name"] = f"{layer['name']}_background"] *)
Definition background_copy (l : Layer) : Layer :=
  mkLayer (layer_name l ++ "_background") (background l) 1.

(** [Background.create_background_textures] *)
Definition create_background_textures : M unit :=
  match texture_schema cfg with
  | None => warning "Texture schema file not found: %s"
  | Some layers_schema =>
      match map background_copy (filter is_background layers_schema) with
      | [] => ret tt
      | background_layers =>
          match texture_layers background_layers with
          | [] => warning "No background textures found."
          | rasters =>
              background_image <- lift (composite (background_size cfg) rasters) ;;
              write_file water_resources_png (FRaster background_image) ;;;
              set_water_resources_path water_resources_png
          end
      end
  end.

(** [Background.subtraction] *)
Definition subtraction : M unit :=
  p <- get_water_resources_path ;;
  match p with
  | None => warning "Water resources texture not found."
  | Some p =>
      water_resources_image <- imread p ;;
      dem_image <- imread output_path ;;
      dem_image <- lift (subtract_depth water_resources_image dem_image (water_depth cfg)) ;;
      write_file output_path (FRaster dem_image)
  end.

(** [Background.save_map_dem] *)
Definition save_map_dem (dem_path : string) (save_path : option string) : M string :=
  dem_data <- imread dem_path ;;
  dem_data <- lift (cut_out_np dem_data (Nat.div (map_size cfg) 2) ReturnCutout) ;;
  match save_path with
  | Some p => write_file p (FRaster dem_data) ;;; ret p
  | None =>
      let output_size := S (map_size cfg) in
      let main_dem_path := dem_file_path cfg in
      remove_if_exists main_dem_path ;;;
      write_file main_dem_path
        (FRaster (cv2_resize_linear dem_data output_size output_size)) ;;;
      ret main_dem_path
  end.

(** [Background.make_copy] *)
Definition make_copy (dem_path dem_name : string) : M unit :=
  copyfile dem_path (join_dirname dem_path dem_name).

(** [Background.generate_obj_files] *)
Definition generate_obj_files : M unit :=
  present <- is_file output_path ;;
  if negb present
  then warning "DEM file not found, generation will be stopped: %s"
  else
    dem_data <- imread output_path ;;
    plane_from_np dem_data background_obj_path false true (remove_center cfg).

(** [Background.generate_water_resources_obj] *)
Definition generate_water_resources_obj : M unit :=
  p <- get_water_resources_path ;;
  match p with
  | None => warning "Water resources texture not found."
  | Some p =>
      plane_water <- imread p ;;
      plane_from_np (dilate 2 5 plane_water) plane_water_path false false false ;;;
      background_dem <- imread not_substracted_path ;;
      elevated_water <- lift (elevated_water_input background_dem plane_water) ;;
      plane_from_np elevated_water elevated_water_path false false false
  end.

(** [Background.process]; [DEM.process] writes [dem_download] at the DEM
    path, which [preprocess] set to [output_path]. *)
Definition process : M unit :=
  create_background_textures ;;;
  (if custom_background cfg then ret tt
   else write_file output_path (FRaster dem_download)) ;;;
  copyfile output_path not_substracted_path ;;;
  _ <- save_map_dem output_path (Some not_resized_path) ;;
  (if Z.eqb (water_depth cfg) 0 then ret tt else subtraction) ;;;
  cutted_dem_path <- save_map_dem output_path None ;;
  (match additional_dem_name cfg with
   | Some name => make_copy cutted_dem_path name
   | None => ret tt
   end) ;;;
  (if generate_background cfg then generate_obj_files else ret tt) ;;;
  (if generate_water cfg then generate_water_resources_obj else ret tt).

End Component.

Arguments Ok {_ A} a w.
Arguments Raise {_ A} e w.
Notation "x <- m ;; k" := (bind m (fun x => k)) (at level 61, m at next level, right associativity).
Notation "m ;;; k" := (bind m (fun _ => k)) (at level 61, right associativity).

(** ** Facts about the component's effects *)

(** ** A concrete instance

    A small run of the component: meshes are represented by their face count,
    the geometric transforms and resizes are the identity, the texture
    classifier yields a 2x2 water mask that is all [255] and the DEM provider
    a flat 2x2 DEM at height [1000]. *)
Definition ex_externals : Externals := {|
  Mesh := nat;
  Trimesh := fun _ faces => length faces;
  apply_transform := fun _ m => m;
  apply_scale := fun _ m => m;
  simplify_percent := fun _ _ m => m;
  simplify_face_count := fun _ m => m;
  face_count := fun m => m;
  resize_fx := fun _ r => r;
  linear_resample := fun r _ _ i j => px r i j;
  z_scaling_factor := 1%Q;
  texture_layers := fun _ => [const_raster 2 2 255];
  dem_download := const_raster 2 2 1000
|}.

Definition ex_config : Config := {|
  map_size := 2;
  background_size := 2;
  water_depth := 50;
  resize_factor := 1%Q;
  generate_background := true;
  generate_water := true;
  remove_center := false;
  apply_decimation := false;
  decimation_percent := 0%Q;
  decimation_agression := 0;
  custom_background := false;
  additional_dem_name := None;
  dem_file_path := "map/data/dem.png";
  texture_schema := Some [mkLayer "water" (Some true) 1]
|}.

Definition ex_world : @World ex_externals := mkWorld (fun _ => None) [] None None.


Section ComponentFacts.
Context `{Externals} (cfg : Config).

Lemma bind_ok_inv {A B} (m : M A) (k : A -> M B) w b w' :
  bind m k w = Ok b w' -> exists a w1, m w = Ok a w1 /\ k a w1 = Ok b w'.
Proof.
  unfold bind. destruct (m w) as [a w1|e w1]; intros Hk; [|discriminate].
  exists a, w1. split; [reflexivity|exact Hk].
Qed.

Lemma lift_ok_inv {A} (o : option A) w a w' :
  lift o w = Ok a w' -> o = Some a /\ w' = w.
Proof. unfold lift. destruct o; intros Hk; inversion Hk; auto. Qed.

Lemma upd_same (f : string -> option File) p v : upd f p v p = v.
Proof. unfold upd. rewrite String.eqb_refl. reflexivity. Qed.

Lemma upd_other (f : string -> option File) p q v : q <> p -> upd f p v q = f q.
Proof. intros Hne. unfold upd. apply String.eqb_neq in Hne. rewrite Hne. reflexivity. Qed.

Definition warned (w : World) (msg : string) : World :=
  mkWorld (fs w) (log w ++ [Warning msg]) (water_resources_path w) (stl_preview_path w).

(** C9. Missing optional inputs skip their branch with a warning and without
    raising: without the DEM file [generate_obj_files] only logs a warning;
    without a texture schema (warning) or without any [background] layer,
    [create_background_textures] writes no water mask, and afterwards both
    [subtraction] and [generate_water_resources_obj] only log a warning. *)
Theorem missing_inputs_are_skipped :
  (forall w, fs w output_path = None ->
     generate_obj_files cfg w =
     Ok tt (warned w "DEM file not found, generation will be stopped: %s")) /\
  (forall w, water_resources_path w = None ->
     (texture_schema cfg = None \/
      exists layers, texture_schema cfg = Some layers /\ filter is_background layers = []) ->
     exists w1, create_background_textures cfg w = Ok tt w1 /\
       fs w1 = fs w /\ water_resources_path w1 = None /\
       (texture_schema cfg = None -> w1 = warned w "Texture schema file not found: %s") /\
       subtraction cfg w1 = Ok tt (warned w1 "Water resources texture not found.") /\
       generate_water_resources_obj cfg w1 =
       Ok tt (warned w1 "Water resources texture not found.")).
Proof.
  split.
  - intros w Hf. unfold generate_obj_files, bind, is_file. rewrite Hf. reflexivity.
  - intros w Hp Hs.
    assert (Hw : forall w1, water_resources_path w1 = None ->
              subtraction cfg w1 = Ok tt (warned w1 "Water resources texture not found.") /\
              generate_water_resources_obj cfg w1 =
              Ok tt (warned w1 "Water resources texture not found.")).
    { intros w1 Hp1. unfold subtraction, generate_water_resources_obj, bind,
        get_water_resources_path. rewrite Hp1. split; reflexivity. }
    unfold create_background_textures. destruct Hs as [Hs|[layers [Hs Hf]]]; rewrite Hs.
    + exists (warned w "Texture schema file not found: %s").
      split; [reflexivity|]. split; [reflexivity|]. split; [exact Hp|].
      split; [reflexivity|]. apply Hw. exact Hp.
    + rewrite Hf. exists w. split; [reflexivity|]. split; [reflexivity|].
      split; [exact Hp|]. split; [intros Hn; discriminate Hn|]. apply Hw. exact Hp.
Qed.


Lemma plane_mesh_shape (dem : Raster) (include_zeros rc : bool) (mesh : Mesh) :
  plane_mesh cfg dem include_zeros rc = Some mesh ->
  exists dem2 vertices faces sx sy,
    triangulate include_zeros dem2 = Some (vertices, faces) /\
    (rc = false -> dem2 = resize_fx (Qinv (resize_factor cfg)) dem) /\
    (sx == resize_factor cfg)%Q /\ (sy == resize_factor cfg)%Q /\
    let scaled := apply_scale (sx, sy, z_scaling_factor)
                    (apply_transform AxisZ (apply_transform AxisY (Trimesh vertices faces))) in
    mesh = if apply_decimation cfg
           then simplify_percent (decimation_percent cfg / 100) (decimation_agression cfg) scaled
           else scaled.
Proof.
  unfold plane_mesh. cbv zeta.
  set (dem1 := resize_fx (Qinv (resize_factor cfg)) dem).
  set (cut := cut_out_np dem1 _ SetZeros).
  intros Hm.
  assert (Hd : exists dem2, (if rc then cut else Some dem1) = Some dem2 /\
                            (rc = false -> dem2 = dem1)).
  { destruct rc; [destruct cut as [d|]; [exists d; split; [reflexivity|discriminate]|discriminate]|].
    exists dem1. split; reflexivity. }
  destruct Hd as [dem2 [Hd2 Hrc]]. rewrite Hd2 in Hm.
  destruct (triangulate include_zeros dem2) as [[vertices faces]|] eqn:Et; [|discriminate].
  exists dem2, vertices, faces, (Qinv (Qinv (resize_factor cfg))),
         (Qinv (Qinv (resize_factor cfg))).
  split; [exact Et|]. split; [exact Hrc|].
  split; [apply Qinv_involutive|]. split; [apply Qinv_involutive|].
  destruct (apply_decimation cfg).
  - destruct (Nat.eqb _ 0); [discriminate|]. injection Hm as <-. reflexivity.
  - injection Hm as <-. reflexivity.
Qed.

(** C10. [plane_from_np] exports the mesh to [save_path] before any preview
    work: the exported mesh is the rotated grid scaled by
    [(resize_factor, resize_factor, z_scaling_factor)] (then decimated when
    configured), the same whether or not [create_preview] is set; the extra
    [0.5] scaling and the decimation to [faces // 64] only produce the STL
    preview written afterwards. *)
Theorem plane_from_np_exports_before_preview (w w' : World) (dem : Raster)
    (save_path : string) (include_zeros create_preview rc : bool) :
  plane_from_np cfg dem save_path include_zeros create_preview rc w = Ok tt w' ->
  exists mesh, plane_mesh cfg dem include_zeros rc = Some mesh /\
    (exists dem2 vertices faces sx sy,
       triangulate include_zeros dem2 = Some (vertices, faces) /\
       (rc = false -> dem2 = resize_fx (Qinv (resize_factor cfg)) dem) /\
       (sx == resize_factor cfg)%Q /\ (sy == resize_factor cfg)%Q /\
       let scaled := apply_scale (sx, sy, z_scaling_factor)
                       (apply_transform AxisZ (apply_transform AxisY (Trimesh vertices faces))) in
       mesh = if apply_decimation cfg
              then simplify_percent (decimation_percent cfg / 100)
                     (decimation_agression cfg) scaled
              else scaled) /\
    log w' = log w ++ [Wrote save_path (FMesh mesh)] ++
      (if create_preview then
         let preview := apply_scale (1 # 2, 1 # 2, 1 # 2) mesh in
         [Wrote stl_preview_file
            (FMesh (simplify_face_count (Nat.div (face_count preview) 64) preview))]
       else []) /\
    (save_path <> stl_preview_file -> fs w' save_path = Some (FMesh mesh)).
Proof.
  unfold plane_from_np, bind, lift.
  destruct (plane_mesh cfg dem include_zeros rc) as [mesh|] eqn:Hm; [|discriminate].
  intros Hrun. exists mesh. split; [reflexivity|].
  split; [apply plane_mesh_shape; exact Hm|].
  destruct create_preview; unfold mesh_to_stl, write_file, set_stl_preview_path, ret, bind
    in Hrun; injection Hrun as <-; cbn.
  - split; [rewrite <- !app_assoc; reflexivity|].
    intros Hne. unfold upd. apply String.eqb_neq in Hne. rewrite Hne.
    rewrite String.eqb_refl. reflexivity.
  - split; [reflexivity|]. intros _. apply upd_same.
Qed.

(** *** Effects of single steps *)

Definition wrote (w : World) (p : string) (f : File) : World :=
  mkWorld (upd (fs w) p (Some f)) (log w ++ [Wrote p f])
          (water_resources_path w) (stl_preview_path w).

Definition removed (w : World) (p : string) : World :=
  match fs w p with
  | Some _ => mkWorld (upd (fs w) p None) (log w ++ [Removed p])
                      (water_resources_path w) (stl_preview_path w)
  | None => w
  end.

(** The log only grows. *)
Definition appends {A} (m : M A) : Prop :=
  forall w a w', m w = Ok a w' -> exists l, log w' = log w ++ l.

(** The file at [p] is left alone. *)
Definition preserves {A} (p : string) (m : M A) : Prop :=
  forall w a w', m w = Ok a w' -> fs w' p = fs w p.

(** The water mask path is left alone. *)
Definition keeps_wrp {A} (m : M A) : Prop :=
  forall w a w', m w = Ok a w' -> water_resources_path w' = water_resources_path w.

Lemma appends_bind {A B} (m : M A) (k : A -> M B) :
  appends m -> (forall a, appends (k a)) -> appends (bind m k).
Proof.
  intros Hm Hk w b w' Hr. apply bind_ok_inv in Hr. destruct Hr as [a [w1 [H1 H2]]].
  destruct (Hm _ _ _ H1) as [l1 E1]. destruct (Hk _ _ _ _ H2) as [l2 E2].
  exists (l1 ++ l2). rewrite E2, E1, app_assoc. reflexivity.
Qed.

Lemma preserves_bind {A B} p (m : M A) (k : A -> M B) :
  preserves p m -> (forall a, preserves p (k a)) -> preserves p (bind m k).
Proof.
  intros Hm Hk w b w' Hr. apply bind_ok_inv in Hr. destruct Hr as [a [w1 [H1 H2]]].
  rewrite (Hk _ _ _ _ H2). apply (Hm _ _ _ H1).
Qed.

Lemma keeps_wrp_bind {A B} (m : M A) (k : A -> M B) :
  keeps_wrp m -> (forall a, keeps_wrp (k a)) -> keeps_wrp (bind m k).
Proof.
  intros Hm Hk w b w' Hr. apply bind_ok_inv in Hr. destruct Hr as [a [w1 [H1 H2]]].
  rewrite (Hk _ _ _ _ H2). apply (Hm _ _ _ H1).
Qed.

Ltac prim_tac :=
  intros ? ? ? Hr;
  repeat match type of Hr with
  | context [match ?x with _ => _ end] => destruct x
  end;
  inversion Hr; subst; cbn;
  try (exists []; rewrite app_nil_r; reflexivity); try (eexists; reflexivity).

Lemma appends_ret {A} (a : A) : appends (ret a).
Proof. unfold ret. prim_tac. Qed.
Lemma appends_lift {A} (o : option A) : appends (lift o).
Proof. unfold lift. prim_tac. Qed.
Lemma appends_write p f : appends (write_file p f).
Proof. unfold write_file. prim_tac. Qed.
Lemma appends_warning msg : appends (warning msg).
Proof. unfold warning. prim_tac. Qed.
Lemma appends_is_file p : appends (is_file p).
Proof. unfold is_file. prim_tac. Qed.
Lemma appends_imread p : appends (imread p).
Proof. unfold imread. prim_tac. Qed.
Lemma appends_copyfile p q : appends (copyfile p q).
Proof. unfold copyfile, write_file. prim_tac. Qed.
Lemma appends_remove p : appends (remove_if_exists p).
Proof. unfold remove_if_exists. prim_tac. Qed.
Lemma appends_set_wrp p : appends (set_water_resources_path p).
Proof. unfold set_water_resources_path. prim_tac. Qed.
Lemma appends_set_stl p : appends (set_stl_preview_path p).
Proof. unfold set_stl_preview_path. prim_tac. Qed.
Lemma appends_get_wrp : appends get_water_resources_path.
Proof. unfold get_water_resources_path. prim_tac. Qed.

Create HintDb effects.
#[local] Hint Resolve appends_bind appends_ret appends_lift appends_write appends_warning
  appends_is_file appends_imread appends_copyfile appends_remove appends_set_wrp
  appends_set_stl appends_get_wrp : effects.

Ltac appends_tac :=
  repeat (apply appends_bind; [|intros]);
  repeat match goal with
  | |- appends (if ?b then _ else _) => destruct b
  | |- appends (match ?x with _ => _ end) => destruct x
  end;
  auto with effects.

Lemma appends_plane_from_np dem sp iz cp rc : appends (plane_from_np cfg dem sp iz cp rc).
Proof. unfold plane_from_np, mesh_to_stl. appends_tac. Qed.
Lemma appends_create_background_textures : appends (create_background_textures cfg).
Proof. unfold create_background_textures. appends_tac. Qed.
Lemma appends_subtraction : appends (subtraction cfg).
Proof. unfold subtraction. appends_tac. Qed.
Lemma appends_save_map_dem p q : appends (save_map_dem cfg p q).
Proof. unfold save_map_dem. appends_tac. Qed.
Lemma appends_make_copy p n : appends (make_copy p n).
Proof. unfold make_copy. appends_tac. Qed.
Lemma appends_generate_obj_files : appends (generate_obj_files cfg).
Proof. unfold generate_obj_files. pose proof appends_plane_from_np. appends_tac. Qed.
Lemma appends_generate_water_resources_obj : appends (generate_water_resources_obj cfg).
Proof.
  unfold generate_water_resources_obj. pose proof appends_plane_from_np. appends_tac.
Qed.

(** *** Frame lemmas *)

Lemma preserves_write p q f : p <> q -> preserves p (write_file q f).
Proof. intros Hne w a w' Hr. inversion Hr; subst. cbn. apply upd_other. exact Hne. Qed.
Lemma preserves_warning p msg : preserves p (warning msg).
Proof. intros w a w' Hr. inversion Hr; subst. reflexivity. Qed.
Lemma preserves_ret {A} p (a : A) : preserves p (ret a).
Proof. intros w b w' Hr. inversion Hr; subst. reflexivity. Qed.
Lemma preserves_lift {A} p (o : option A) : preserves p (lift o).
Proof. intros w b w' Hr. apply lift_ok_inv in Hr. destruct Hr as [_ ->]. reflexivity. Qed.
Lemma preserves_is_file p q : preserves p (is_file q).
Proof. intros w b w' Hr. inversion Hr; subst. reflexivity. Qed.
Lemma preserves_imread p q : preserves p (imread q).
Proof.
  intros w b w' Hr. unfold imread in Hr.
  destruct (fs w q) as [[]|]; inversion Hr; subst; reflexivity.
Qed.
Lemma preserves_get_wrp p : preserves p get_water_resources_path.
Proof. intros w b w' Hr. inversion Hr; subst. reflexivity. Qed.
Lemma preserves_set_stl p q : preserves p (set_stl_preview_path q).
Proof. intros w b w' Hr. inversion Hr; subst. reflexivity. Qed.
Lemma preserves_copyfile p src dst : p <> dst -> preserves p (copyfile src dst).
Proof.
  intros Hne w b w' Hr. unfold copyfile in Hr. destruct (fs w src); [|discriminate].
  apply (preserves_write p dst f Hne w b w' Hr).
Qed.

#[local] Hint Resolve preserves_bind preserves_write preserves_warning preserves_ret
  preserves_lift preserves_is_file preserves_imread preserves_get_wrp preserves_set_stl
  preserves_copyfile : effects.

Ltac preserves_tac :=
  repeat (apply preserves_bind; [|intros]);
  repeat match goal with
  | |- preserves _ (if ?b then _ else _) => destruct b
  | |- preserves _ (match ?x with _ => _ end) => destruct x
  end;
  auto with effects.

Lemma preserves_plane_from_np p dem sp iz cp rc :
  p <> sp -> p <> stl_preview_file -> preserves p (plane_from_np cfg dem sp iz cp rc).
Proof. intros H1 H2. unfold plane_from_np, mesh_to_stl. preserves_tac. Qed.

Lemma preserves_generate_obj_files p :
  p <> background_obj_path -> p <> stl_preview_file -> preserves p (generate_obj_files cfg).
Proof.
  intros H1 H2. unfold generate_obj_files.
  apply preserves_bind; [auto with effects|]. intros b.
  destruct (negb b); [auto with effects|].
  apply preserves_bind; [auto with effects|]. intros d.
  apply preserves_plane_from_np; assumption.
Qed.

Lemma preserves_make_copy p q n : p <> join_dirname q n -> preserves p (make_copy q n).
Proof. intros Hne. unfold make_copy. auto with effects. Qed.

(** *** Inversion of single steps *)

Lemma write_file_inv p f w a w' : write_file p f w = Ok a w' -> w' = wrote w p f.
Proof. intros Hr. inversion Hr. reflexivity. Qed.

Lemma copyfile_inv src dst w a w' :
  copyfile src dst w = Ok a w' -> exists f, fs w src = Some f /\ w' = wrote w dst f.
Proof.
  unfold copyfile. destruct (fs w src) as [f|]; intros Hr; [|discriminate].
  exists f. split; [reflexivity|]. apply write_file_inv in Hr. exact Hr.
Qed.

Lemma imread_inv p w r w' : imread p w = Ok r w' -> fs w p = Some (FRaster r) /\ w' = w.
Proof. unfold imread. destruct (fs w p) as [[]|]; intros Hr; inversion Hr; subst; auto. Qed.

Lemma save_map_dem_some_inv dem_path q w r w' :
  save_map_dem cfg dem_path (Some q) w = Ok r w' ->
  exists d c, fs w dem_path = Some (FRaster d) /\
    cut_out_np d (Nat.div (map_size cfg) 2) ReturnCutout = Some c /\
    w' = wrote w q (FRaster c).
Proof.
  unfold save_map_dem. intros Hr.
  apply bind_ok_inv in Hr. destruct Hr as [d [w1 [H1 Hr]]]. apply imread_inv in H1.
  destruct H1 as [Hd ->].
  apply bind_ok_inv in Hr. destruct Hr as [c [w2 [H2 Hr]]]. apply lift_ok_inv in H2.
  destruct H2 as [Hc ->].
  apply bind_ok_inv in Hr. destruct Hr as [u [w3 [H3 Hr]]]. apply write_file_inv in H3.
  inversion Hr; subst. exists d, c. auto.
Qed.

Lemma save_map_dem_none_inv dem_path w r w' :
  save_map_dem cfg dem_path None w = Ok r w' ->
  exists d c, fs w dem_path = Some (FRaster d) /\
    cut_out_np d (Nat.div (map_size cfg) 2) ReturnCutout = Some c /\
    r = dem_file_path cfg /\
    w' = wrote (removed w (dem_file_path cfg)) (dem_file_path cfg)
           (FRaster (cv2_resize_linear c (S (map_size cfg)) (S (map_size cfg)))).
Proof.
  unfold save_map_dem. intros Hr.
  apply bind_ok_inv in Hr. destruct Hr as [d [w1 [H1 Hr]]]. apply imread_inv in H1.
  destruct H1 as [Hd ->].
  apply bind_ok_inv in Hr. destruct Hr as [c [w2 [H2 Hr]]]. apply lift_ok_inv in H2.
  destruct H2 as [Hc ->].
  apply bind_ok_inv in Hr. destruct Hr as [u [w3 [H3 Hr]]].
  apply bind_ok_inv in Hr. destruct Hr as [v [w4 [H4 Hr]]]. apply write_file_inv in H4.
  inversion Hr; subst. exists d, c. repeat split; auto.
  unfold remove_if_exists in H3. unfold removed.
  destruct (fs w (dem_file_path cfg)); inversion H3; reflexivity.
Qed.

Lemma subtraction_inv w a w' :
  subtraction cfg w = Ok a w' ->
  (water_resources_path w = None /\ w' = warned w "Water resources texture not found.") \/
  exists p water d d1, water_resources_path w = Some p /\
    fs w p = Some (FRaster water) /\ fs w output_path = Some (FRaster d) /\
    subtract_depth water d (water_depth cfg) = Some d1 /\
    w' = wrote w output_path (FRaster d1).
Proof.
  unfold subtraction. intros Hr.
  apply bind_ok_inv in Hr. destruct Hr as [o [w1 [H1 Hr]]].
  unfold get_water_resources_path in H1. injection H1 as Ho Hw1. subst o w1.
  destruct (water_resources_path w) as [p|] eqn:Ep.
  - right. apply bind_ok_inv in Hr. destruct Hr as [water [w2 [H2 Hr]]].
    apply imread_inv in H2. destruct H2 as [Hw ->].
    apply bind_ok_inv in Hr. destruct Hr as [d [w3 [H3 Hr]]].
    apply imread_inv in H3. destruct H3 as [Hd ->].
    apply bind_ok_inv in Hr. destruct Hr as [d1 [w4 [H4 Hr]]].
    apply lift_ok_inv in H4. destruct H4 as [Hs ->]. apply write_file_inv in Hr.
    exists p, water, d, d1. auto 6.
  - left. inversion Hr. auto.
Qed.

Lemma preserves_set_wrp p q : preserves p (set_water_resources_path q).
Proof. intros w b w' Hr. inversion Hr; subst. reflexivity. Qed.

Lemma preserves_create_background_textures p :
  p <> water_resources_png -> preserves p (create_background_textures cfg).
Proof.
  intros Hp. unfold create_background_textures. pose proof preserves_set_wrp.
  preserves_tac.
Qed.

Lemma log_removed w p :
  exists lr, log (removed w p) = log w ++ lr /\ forall q f, ~ In (Wrote q f) lr.
Proof.
  unfold removed. destruct (fs w p) as [g|].
  - exists [Removed p]. split; [reflexivity|]. intros q f [H1|[]]. discriminate H1.
  - exists []. split; [symmetry; apply app_nil_r|]. intros q f [].
Qed.

Lemma fs_removed_other w p q : q <> p -> fs (removed w p) q = fs w q.
Proof. intros Hne. unfold removed. destruct (fs w p); [apply upd_other|]; auto. Qed.

Lemma wrp_removed w p : water_resources_path (removed w p) = water_resources_path w.
Proof. unfold removed. destruct (fs w p); reflexivity. Qed.

Lemma process_prefix_inv (w0 w : World) :
  process cfg w0 = Ok tt w ->
  exists w1 w2 d0 c0 w5 d1 c1 w6,
    create_background_textures cfg w0 = Ok tt w1 /\
    (if custom_background cfg then fs w0 output_path = Some (FRaster d0)
     else d0 = dem_download) /\
    fs w2 output_path = Some (FRaster d0) /\
    log w2 = log w1 ++ (if custom_background cfg then []
                       else [Wrote output_path (FRaster dem_download)]) /\
    cut_out_np d0 (Nat.div (map_size cfg) 2) ReturnCutout = Some c0 /\
    (let w4 := wrote (wrote w2 not_substracted_path (FRaster d0))
                     not_resized_path (FRaster c0) in
     (Z.eqb (water_depth cfg) 0 = true /\ w5 = w4 /\ d1 = d0) \/
     (Z.eqb (water_depth cfg) 0 = false /\ water_resources_path w4 = None /\
      w5 = warned w4 "Water resources texture not found." /\ d1 = d0) \/
     (Z.eqb (water_depth cfg) 0 = false /\
      exists p water, water_resources_path w4 = Some p /\ fs w4 p = Some (FRaster water) /\
        subtract_depth water d0 (water_depth cfg) = Some d1 /\
        w5 = wrote w4 output_path (FRaster d1))) /\
    fs w5 output_path = Some (FRaster d1) /\
    cut_out_np d1 (Nat.div (map_size cfg) 2) ReturnCutout = Some c1 /\
    w6 = wrote (removed w5 (dem_file_path cfg)) (dem_file_path cfg)
           (FRaster (cv2_resize_linear c1 (S (map_size cfg)) (S (map_size cfg)))) /\
    ((match additional_dem_name cfg with
      | Some name => make_copy (dem_file_path cfg) name
      | None => ret tt
      end) ;;;
     (if generate_background cfg then generate_obj_files cfg else ret tt) ;;;
     (if generate_water cfg then generate_water_resources_obj cfg else ret tt)) w6 = Ok tt w.
Proof.
  unfold process. intros Hr.
  apply bind_ok_inv in Hr. destruct Hr as [[] [a [Htex Hr]]].
  apply bind_ok_inv in Hr. destruct Hr as [u1 [w1 [Hdl Hr]]].
  assert (Hpre := preserves_create_background_textures output_path ltac:(discriminate) _ _ _ Htex).
  apply bind_ok_inv in Hr. destruct Hr as [u2 [w2 [Hcp Hr]]].
  apply copyfile_inv in Hcp. destruct Hcp as [f [Hf ->]].
  apply bind_ok_inv in Hr. destruct Hr as [u3 [w3 [Hsv Hr]]].
  apply save_map_dem_some_inv in Hsv. destruct Hsv as [d0 [c0 [Hd0 [Hc0 ->]]]].
  cbn [wrote fs] in Hd0. rewrite upd_other in Hd0 by discriminate.
  rewrite Hd0 in Hf. injection Hf as <-.
  apply bind_ok_inv in Hr. destruct Hr as [u4 [w3 [Hs1 Hr]]].
  apply bind_ok_inv in Hr. destruct Hr as [u5 [w6 [Hs2 Hr]]].
  apply save_map_dem_none_inv in Hs2.
  destruct Hs2 as [d1 [c1 [Hd1 [Hc1 [-> ->]]]]].
  set (w4 := wrote (wrote w1 not_substracted_path (FRaster d0)) not_resized_path (FRaster c0)) in *.
  assert (Hw4 : fs w4 output_path = Some (FRaster d0)).
  { unfold w4, wrote. cbn [fs]. rewrite !upd_other by discriminate. exact Hd0. }
  exists a, w1, d0, c0, w3, d1, c1.
  eexists. split; [exact Htex|].
  assert (Hcust : (if custom_background cfg then fs w0 output_path = Some (FRaster d0)
                   else d0 = dem_download) /\
                  log w1 = log a ++ (if custom_background cfg then []
                                     else [Wrote output_path (FRaster dem_download)])).
  { destruct (custom_background cfg).
    - unfold ret in Hdl. inversion Hdl; subst.
      split; [rewrite <- Hpre; exact Hd0 | symmetry; apply app_nil_r].
    - apply write_file_inv in Hdl. subst w1. unfold wrote in Hd0. cbn [fs] in Hd0.
      rewrite upd_same in Hd0.
      injection Hd0 as <-. split; reflexivity. }
  destruct Hcust as [Hcust Hlog1].
  split; [exact Hcust|]. split; [exact Hd0|]. split; [exact Hlog1|]. split; [exact Hc0|].
  assert (Hd1' : fs w3 output_path = Some (FRaster d1)) by exact Hd1.
  split.
  - cbv zeta. fold w4. destruct (Z.eqb (water_depth cfg) 0) eqn:Ez.
    + left. unfold ret in Hs1. injection Hs1 as E1 E2. rewrite <- E2, Hw4 in Hd1.
      injection Hd1 as <-. auto.
    + right. apply subtraction_inv in Hs1.
      destruct Hs1 as [[Hn ->]|[p [water [d [d1' [Hp [Hwa [Hd [Hsub ->]]]]]]]]].
      * left. unfold warned in Hd1. cbn [fs] in Hd1. rewrite Hw4 in Hd1.
        injection Hd1 as <-. auto.
      * right. rewrite Hw4 in Hd. injection Hd as <-.
        unfold wrote at 1 in Hd1. cbn [fs] in Hd1. rewrite upd_same in Hd1.
        injection Hd1 as <-.
        split; [reflexivity|]. exists p, water. auto.
  - split; [exact Hd1'|]. split; [exact Hc1|]. split; [reflexivity|]. exact Hr.
Qed.

(** C4 (amended). In a successful run of [Background.process], the diagnostic
    copies [not_substracted.png] (the DEM [d0] before any depth adjustment) and
    [not_resized.png] (its cutout) are written first; then comes the optional
    depth adjustment, whose only writes of the working DEM are the subtracted
    raster [d1] and only when a non-zero water depth is configured; the
    map-sized main DEM is written after it, from the cutout of the adjusted
    raster [d1]. *)
Theorem process_diagnostics_depth_then_map_cutout (w0 w : World) :
  process cfg w0 = Ok tt w ->
  exists d0 c0 d1 c1 l1 l2 l3,
    (if custom_background cfg then fs w0 output_path = Some (FRaster d0)
     else d0 = dem_download) /\
    cut_out_np d0 (Nat.div (map_size cfg) 2) ReturnCutout = Some c0 /\
    cut_out_np d1 (Nat.div (map_size cfg) 2) ReturnCutout = Some c1 /\
    log w = l1 ++ [Wrote not_substracted_path (FRaster d0);
                   Wrote not_resized_path (FRaster c0)]
            ++ l2 ++ [Wrote (dem_file_path cfg)
                        (FRaster (cv2_resize_linear c1 (S (map_size cfg)) (S (map_size cfg))))]
            ++ l3 /\
    (forall f, In (Wrote output_path f) l2 -> f = FRaster d1 /\ water_depth cfg <> 0) /\
    (d1 = d0 \/
     (water_depth cfg <> 0 /\
      exists water, subtract_depth water d0 (water_depth cfg) = Some d1 /\
                    In (Wrote output_path (FRaster d1)) l2)).
Proof.
  intros Hr. apply process_prefix_inv in Hr.
  destruct Hr as [w1 [w2 [d0 [c0 [w5 [d1 [c1 [w6
    [_ [Hcust [_ [_ [Hc0 [Hcase [_ [Hc1 [-> Htail]]]]]]]]]]]]]]]]].
  assert (Happ : appends
    ((match additional_dem_name cfg with
      | Some name => make_copy (dem_file_path cfg) name
      | None => ret tt
      end) ;;;
     (if generate_background cfg then generate_obj_files cfg else ret tt) ;;;
     (if generate_water cfg then generate_water_resources_obj cfg else ret tt))).
  { pose proof appends_make_copy. pose proof appends_generate_obj_files.
    pose proof appends_generate_water_resources_obj. appends_tac. }
  destruct (Happ _ _ _ Htail) as [l3 Hl3].
  destruct (log_removed w5 (dem_file_path cfg)) as [lr [Hlr Hnw]].
  set (w4 := wrote (wrote w2 not_substracted_path (FRaster d0)) not_resized_path (FRaster c0))
    in Hcase.
  assert (Hl4 : log w4 = log w2 ++ [Wrote not_substracted_path (FRaster d0);
                                    Wrote not_resized_path (FRaster c0)]).
  { unfold w4, wrote. cbn [log]. rewrite <- app_assoc. reflexivity. }
  assert (Hmain : log w = log w5 ++ lr ++ [Wrote (dem_file_path cfg)
      (FRaster (cv2_resize_linear c1 (S (map_size cfg)) (S (map_size cfg))))] ++ l3).
  { rewrite Hl3. unfold wrote at 1. cbn [log]. rewrite Hlr, <- !app_assoc. reflexivity. }
  destruct Hcase as [[Ez [-> ->]]|[[Ez [_ [-> ->]]]|[Ez [p [water [_ [_ [Hsub ->]]]]]]]].
  - exists d0, c0, d0, c1, (log w2), lr, l3.
    split; [exact Hcust|]. split; [exact Hc0|]. split; [exact Hc1|].
    split; [rewrite Hmain, Hl4, <- app_assoc; reflexivity|].
    split; [intros f Hin; destruct (Hnw _ _ Hin)|]. left; reflexivity.
  - exists d0, c0, d0, c1, (log w2), (Warning "Water resources texture not found." :: lr), l3.
    split; [exact Hcust|]. split; [exact Hc0|]. split; [exact Hc1|].
    split; [rewrite Hmain; unfold warned; cbn [log]; rewrite Hl4, <- !app_assoc; reflexivity|].
    split; [intros f [Hin|Hin]; [discriminate Hin|destruct (Hnw _ _ Hin)]|].
    left; reflexivity.
  - apply Z.eqb_neq in Ez.
    exists d0, c0, d1, c1, (log w2), (Wrote output_path (FRaster d1) :: lr), l3.
    split; [exact Hcust|]. split; [exact Hc0|]. split; [exact Hc1|].
    split; [rewrite Hmain; unfold wrote at 1; cbn [log]; rewrite Hl4, <- !app_assoc;
            reflexivity|].
    split.
    + intros f [Hin|Hin]; [injection Hin as <-; auto|destruct (Hnw _ _ Hin)].
    + right. split; [exact Ez|]. exists water. split; [exact Hsub|left; reflexivity].
Qed.

Lemma plane_from_np_nopreview_inv dem sp iz rc w a w' :
  plane_from_np cfg dem sp iz false rc w = Ok a w' ->
  exists m, plane_mesh cfg dem iz rc = Some m /\ w' = wrote w sp (FMesh m).
Proof.
  unfold plane_from_np. intros Hr.
  apply bind_ok_inv in Hr. destruct Hr as [m [w1 [H1 Hr]]].
  apply lift_ok_inv in H1. destruct H1 as [Hm ->].
  apply bind_ok_inv in Hr. destruct Hr as [u [w2 [H2 Hr]]].
  apply write_file_inv in H2. subst w2. unfold ret in Hr. injection Hr as _ <-.
  exists m. auto.
Qed.

Lemma generate_water_resources_obj_inv w a w' :
  generate_water_resources_obj cfg w = Ok a w' ->
  (water_resources_path w = None /\ w' = warned w "Water resources texture not found.") \/
  exists p water w1 bg E m,
    water_resources_path w = Some p /\ fs w p = Some (FRaster water) /\
    plane_from_np cfg (dilate 2 5 water) plane_water_path false false false w = Ok tt w1 /\
    fs w1 not_substracted_path = Some (FRaster bg) /\
    elevated_water_input bg water = Some E /\
    plane_mesh cfg E false false = Some m /\
    w' = wrote w1 elevated_water_path (FMesh m).
Proof.
  unfold generate_water_resources_obj. intros Hr.
  apply bind_ok_inv in Hr. destruct Hr as [o [w1 [H1 Hr]]].
  unfold get_water_resources_path in H1. injection H1 as Ho Hw1. subst o w1.
  destruct (water_resources_path w) as [p|] eqn:Ep.
  - right. apply bind_ok_inv in Hr. destruct Hr as [water [w2 [H2 Hr]]].
    apply imread_inv in H2. destruct H2 as [Hw ->].
    apply bind_ok_inv in Hr. destruct Hr as [[] [w3 [H3 Hr]]].
    apply bind_ok_inv in Hr. destruct Hr as [bg [w4 [H4 Hr]]].
    apply imread_inv in H4. destruct H4 as [Hbg ->].
    apply bind_ok_inv in Hr. destruct Hr as [E [w5 [H5 Hr]]].
    apply lift_ok_inv in H5. destruct H5 as [HE ->].
    apply plane_from_np_nopreview_inv in Hr. destruct Hr as [m [Hm ->]].
    exists p, water, w3, bg, E, m. auto 8.
  - left. inversion Hr. auto.
Qed.

Lemma fs_wrote_other w p q f : q <> p -> fs (wrote w p f) q = fs w q.
Proof. intros Hne. unfold wrote. cbn [fs]. apply upd_other. exact Hne. Qed.

Lemma fs_warned w msg q : fs (warned w msg) q = fs w q.
Proof. reflexivity. Qed.

(** *** The water mask path *)

Ltac wrp_prim_tac :=
  intros ? ? ? Hr;
  repeat match type of Hr with
  | context [match ?x with _ => _ end] => destruct x
  end;
  inversion Hr; subst; reflexivity.

Lemma keeps_wrp_ret {A} (a : A) : keeps_wrp (ret a).
Proof. unfold ret. wrp_prim_tac. Qed.
Lemma keeps_wrp_lift {A} (o : option A) : keeps_wrp (lift o).
Proof. unfold lift. wrp_prim_tac. Qed.
Lemma keeps_wrp_write p f : keeps_wrp (write_file p f).
Proof. unfold write_file. wrp_prim_tac. Qed.
Lemma keeps_wrp_warning msg : keeps_wrp (warning msg).
Proof. unfold warning. wrp_prim_tac. Qed.
Lemma keeps_wrp_is_file p : keeps_wrp (is_file p).
Proof. unfold is_file. wrp_prim_tac. Qed.
Lemma keeps_wrp_imread p : keeps_wrp (imread p).
Proof. unfold imread. wrp_prim_tac. Qed.
Lemma keeps_wrp_copyfile p q : keeps_wrp (copyfile p q).
Proof. unfold copyfile, write_file. wrp_prim_tac. Qed.
Lemma keeps_wrp_remove p : keeps_wrp (remove_if_exists p).
Proof. unfold remove_if_exists. wrp_prim_tac. Qed.
Lemma keeps_wrp_set_stl p : keeps_wrp (set_stl_preview_path p).
Proof. unfold set_stl_preview_path. wrp_prim_tac. Qed.
Lemma keeps_wrp_get_wrp : keeps_wrp get_water_resources_path.
Proof. unfold get_water_resources_path. wrp_prim_tac. Qed.

Create HintDb wrp_effects.
#[local] Hint Resolve keeps_wrp_bind keeps_wrp_ret keeps_wrp_lift keeps_wrp_write
  keeps_wrp_warning keeps_wrp_is_file keeps_wrp_imread keeps_wrp_copyfile keeps_wrp_remove
  keeps_wrp_set_stl keeps_wrp_get_wrp : wrp_effects.

Ltac wrp_tac :=
  repeat (apply keeps_wrp_bind; [|intros]);
  repeat match goal with
  | |- keeps_wrp (if ?b then _ else _) => destruct b
  | |- keeps_wrp (match ?x with _ => _ end) => destruct x
  end;
  auto with wrp_effects.

Lemma keeps_wrp_plane_from_np dem sp iz cp rc : keeps_wrp (plane_from_np cfg dem sp iz cp rc).
Proof. unfold plane_from_np, mesh_to_stl. wrp_tac. Qed.
Lemma keeps_wrp_subtraction : keeps_wrp (subtraction cfg).
Proof. unfold subtraction. wrp_tac. Qed.
Lemma keeps_wrp_save_map_dem p q : keeps_wrp (save_map_dem cfg p q).
Proof. unfold save_map_dem. wrp_tac. Qed.
Lemma keeps_wrp_make_copy p n : keeps_wrp (make_copy p n).
Proof. unfold make_copy. wrp_tac. Qed.

#[local] Hint Resolve keeps_wrp_plane_from_np keeps_wrp_subtraction keeps_wrp_save_map_dem
  keeps_wrp_make_copy : wrp_effects.

Lemma keeps_wrp_generate_obj_files : keeps_wrp (generate_obj_files cfg).
Proof. unfold generate_obj_files. wrp_tac. Qed.
Lemma keeps_wrp_generate_water_resources_obj : keeps_wrp (generate_water_resources_obj cfg).
Proof. unfold generate_water_resources_obj. wrp_tac. Qed.

#[local] Hint Resolve keeps_wrp_generate_obj_files keeps_wrp_generate_water_resources_obj
  : wrp_effects.

(** [create_background_textures] either leaves the water mask path alone or
    records [water/water_resources.png]. *)
Lemma create_background_textures_wrp w a w' :
  create_background_textures cfg w = Ok a w' ->
  water_resources_path w' = water_resources_path w \/
  water_resources_path w' = Some water_resources_png.
Proof.
  unfold create_background_textures. intros Hr.
  destruct (texture_schema cfg) as [ls|]; [|unfold warning in Hr; inversion Hr; left; reflexivity].
  destruct (map background_copy (filter is_background ls)) as [|l ls'];
    [unfold ret in Hr; inversion Hr; left; reflexivity|].
  destruct (texture_layers (l :: ls')) as [|r rs];
    [unfold warning in Hr; inversion Hr; left; reflexivity|].
  apply bind_ok_inv in Hr. destruct Hr as [bg [w1 [H1 Hr]]].
  apply lift_ok_inv in H1. destruct H1 as [_ ->].
  apply bind_ok_inv in Hr. destruct Hr as [u [w2 [H2 Hr]]].
  unfold set_water_resources_path in Hr. inversion Hr. right. reflexivity.
Qed.

(** After [create_background_textures], [process] never changes the water
    mask path. *)
Lemma process_wrp w0 w :
  process cfg w0 = Ok tt w ->
  exists w1, create_background_textures cfg w0 = Ok tt w1 /\
             water_resources_path w = water_resources_path w1.
Proof.
  unfold process. intros Hr. apply bind_ok_inv in Hr. destruct Hr as [[] [w1 [H1 Hr]]].
  exists w1. split; [exact H1|]. cbv beta in Hr.
  lazymatch type of Hr with
  | ?m w1 = Ok _ w => refine ((_ : keeps_wrp m) w1 _ w Hr)
  end.
  wrp_tac.
Qed.

(** C7. When [generate_water] is set, the last step of a successful
    [Background.process] (started, as [preprocess] leaves it, with no water
    mask recorded) either only warns that the water mask is missing, or
    writes the elevated water mesh built from [elevated_water_input d0 water],
    where [water] is the raster of [water/water_resources.png] written by
    [create_background_textures] (still there at the end of the run) and [d0]
    is the DEM before the depth adjustment (the downloaded or custom DEM).
    Every pixel of the zeroed DEM is [0] where the mask is [0] and the DEM
    value elsewhere; every pixel of the mesh input is that zeroed value when
    it is positive, and otherwise the value of the 10-iteration 3x3 dilation
    of the zeroed DEM. *)
Theorem elevated_water_input_prefers_original (w0 w : World) :
  process cfg w0 = Ok tt w ->
  generate_water cfg = true ->
  water_resources_path w0 = None ->
  dem_file_path cfg <> not_substracted_path ->
  (forall n, additional_dem_name cfg = Some n ->
             join_dirname (dem_file_path cfg) n <> not_substracted_path) ->
  exists d0,
    (if custom_background cfg then fs w0 output_path = Some (FRaster d0)
     else d0 = dem_download) /\
    ((water_resources_path w = None /\
      exists l, log w = l ++ [Warning "Water resources texture not found."]) \/
     (exists water E m l,
        water_resources_path w = Some water_resources_png /\
        fs w water_resources_png = Some (FRaster water) /\
        elevated_water_input d0 water = Some E /\
        plane_mesh cfg E false false = Some m /\
        log w = l ++ [Wrote elevated_water_path (FMesh m)] /\
        rows E = rows d0 /\ cols E = cols d0 /\
        forall i j,
          let z := zero_non_water d0 water in
          px z i j = (if px water i j =? 0 then 0 else px d0 i j) /\
          px E i j = (if 0 <? px z i j then px z i j else px (dilate 1 10 z) i j))).
Proof.
  intros Hr Hgw Hw0 Hmain Hcopy.
  destruct (process_wrp w0 w Hr) as [wc [Hc Hwc]].
  pose proof (create_background_textures_wrp w0 tt wc Hc) as Hwrp.
  rewrite Hw0, <- Hwc in Hwrp. clear Hc Hwc.
  apply process_prefix_inv in Hr.
  destruct Hr as [w1 [w2 [d0 [c0 [w5 [d1 [c1 [w6
    [_ [Hcust [_ [_ [_ [Hcase [_ [_ [-> Htail]]]]]]]]]]]]]]]]].
  exists d0. split; [exact Hcust|].
  set (w4 := wrote (wrote w2 not_substracted_path (FRaster d0)) not_resized_path (FRaster c0))
    in Hcase.
  assert (H4 : fs w4 not_substracted_path = Some (FRaster d0)).
  { unfold w4. rewrite fs_wrote_other by discriminate. unfold wrote. cbn [fs].
    apply upd_same. }
  assert (H5 : fs w5 not_substracted_path = Some (FRaster d0)).
  { destruct Hcase as [[_ [-> _]]|[[_ [_ [-> _]]]|[_ [p [water [_ [_ [_ ->]]]]]]]].
    - exact H4.
    - rewrite fs_warned. exact H4.
    - rewrite fs_wrote_other by discriminate. exact H4. }
  assert (H6 : fs (wrote (removed w5 (dem_file_path cfg)) (dem_file_path cfg)
                 (FRaster (cv2_resize_linear c1 (S (map_size cfg)) (S (map_size cfg)))))
                 not_substracted_path = Some (FRaster d0)).
  { rewrite fs_wrote_other by (intros E; apply Hmain; symmetry; exact E).
    rewrite fs_removed_other by (intros E; apply Hmain; symmetry; exact E). exact H5. }
  apply bind_ok_inv in Htail. destruct Htail as [u7 [w7 [H7 Htail]]].
  apply bind_ok_inv in Htail. destruct Htail as [u8 [w8 [H8 Htail]]].
  rewrite Hgw in Htail.
  assert (H7' : fs w7 not_substracted_path = Some (FRaster d0)).
  { destruct (additional_dem_name cfg) as [n|] eqn:En.
    - rewrite (preserves_make_copy not_substracted_path _ _
                 (fun E => Hcopy n eq_refl (eq_sym E)) _ _ _ H7). exact H6.
    - unfold ret in H7. injection H7 as _ <-. exact H6. }
  assert (H8' : fs w8 not_substracted_path = Some (FRaster d0)).
  { destruct (generate_background cfg).
    - rewrite (preserves_generate_obj_files not_substracted_path
                 ltac:(discriminate) ltac:(discriminate) _ _ _ H8). exact H7'.
    - unfold ret in H8. injection H8 as _ <-. exact H7'. }
  apply generate_water_resources_obj_inv in Htail.
  destruct Htail as [[Hnone ->]|[p [water [w9 [bg [E [m
                     [Hp [Hwater [H9 [Hbg [HE [Hm ->]]]]]]]]]]]]].
  - left. split; [exact Hnone|]. exists (log w8). reflexivity.
  - right.
    pose proof (keeps_wrp_plane_from_np (dilate 2 5 water) plane_water_path false false false
                  _ _ _ H9) as Hk9.
    assert (Hpng : p = water_resources_png).
    { change (water_resources_path w9 = None \/
              water_resources_path w9 = Some water_resources_png) in Hwrp.
      rewrite Hk9, Hp in Hwrp. destruct Hwrp as [Hw|Hw]; [discriminate Hw|].
      injection Hw as Hw. exact Hw. }
    subst p.
    rewrite (preserves_plane_from_np not_substracted_path (dilate 2 5 water)
               plane_water_path false false false
               ltac:(discriminate) ltac:(discriminate) _ _ _ H9), H8' in Hbg.
    injection Hbg as <-.
    exists water, E, m, (log w9).
    split; [change (water_resources_path w9 = Some water_resources_png);
            rewrite Hk9; exact Hp|].
    split.
    { rewrite fs_wrote_other by discriminate.
      rewrite (preserves_plane_from_np water_resources_png (dilate 2 5 water)
                 plane_water_path false false false
                 ltac:(discriminate) ltac:(discriminate) _ _ _ H9). exact Hwater. }
    split; [exact HE|]. split; [exact Hm|]. split; [reflexivity|].
    unfold elevated_water_input in HE.
    destruct (_ && _); [|discriminate]. injection HE as <-.
    split; [reflexivity|]. split; [reflexivity|].
    intros i j. split; reflexivity.
Qed.

(** *** The STL preview path *)

(** The recorded STL preview path is left alone. *)
Definition keeps_stl {A} (m : M A) : Prop :=
  forall w a w', m w = Ok a w' -> stl_preview_path w' = stl_preview_path w.

Lemma keeps_stl_bind {A B} (m : M A) (k : A -> M B) :
  keeps_stl m -> (forall a, keeps_stl (k a)) -> keeps_stl (bind m k).
Proof.
  intros Hm Hk w b w' Hr. apply bind_ok_inv in Hr. destruct Hr as [a [w1 [H1 H2]]].
  rewrite (Hk _ _ _ _ H2). apply (Hm _ _ _ H1).
Qed.

Ltac keeps_prim_tac :=
  intros ? ? ? Hr;
  repeat match type of Hr with
  | context [match ?x with _ => _ end] => destruct x
  end;
  inversion Hr; subst; reflexivity.

Lemma keeps_stl_ret {A} (a : A) : keeps_stl (ret a).
Proof. unfold ret. keeps_prim_tac. Qed.
Lemma keeps_stl_lift {A} (o : option A) : keeps_stl (lift o).
Proof. unfold lift. keeps_prim_tac. Qed.
Lemma keeps_stl_write p f : keeps_stl (write_file p f).
Proof. unfold write_file. keeps_prim_tac. Qed.
Lemma keeps_stl_warning msg : keeps_stl (warning msg).
Proof. unfold warning. keeps_prim_tac. Qed.
Lemma keeps_stl_is_file p : keeps_stl (is_file p).
Proof. unfold is_file. keeps_prim_tac. Qed.
Lemma keeps_stl_imread p : keeps_stl (imread p).
Proof. unfold imread. keeps_prim_tac. Qed.
Lemma keeps_stl_copyfile p q : keeps_stl (copyfile p q).
Proof. unfold copyfile, write_file. keeps_prim_tac. Qed.
Lemma keeps_stl_remove p : keeps_stl (remove_if_exists p).
Proof. unfold remove_if_exists. keeps_prim_tac. Qed.
Lemma keeps_stl_set_wrp p : keeps_stl (set_water_resources_path p).
Proof. unfold set_water_resources_path. keeps_prim_tac. Qed.
Lemma keeps_stl_get_wrp : keeps_stl get_water_resources_path.
Proof. unfold get_water_resources_path. keeps_prim_tac. Qed.

#[local] Hint Resolve keeps_stl_bind keeps_stl_ret keeps_stl_lift keeps_stl_write
  keeps_stl_warning keeps_stl_is_file keeps_stl_imread keeps_stl_copyfile keeps_stl_remove
  keeps_stl_set_wrp keeps_stl_get_wrp : effects.

Ltac keeps_tac :=
  repeat (apply keeps_stl_bind; [|intros]);
  repeat match goal with
  | |- keeps_stl (if ?b then _ else _) => destruct b
  | |- keeps_stl (match ?x with _ => _ end) => destruct x
  end;
  auto with effects.

Lemma keeps_stl_plane_from_np_nopreview dem sp iz rc :
  keeps_stl (plane_from_np cfg dem sp iz false rc).
Proof. unfold plane_from_np. keeps_tac. Qed.
Lemma keeps_stl_create_background_textures : keeps_stl (create_background_textures cfg).
Proof. unfold create_background_textures. keeps_tac. Qed.
Lemma keeps_stl_subtraction : keeps_stl (subtraction cfg).
Proof. unfold subtraction. keeps_tac. Qed.
Lemma keeps_stl_save_map_dem p q : keeps_stl (save_map_dem cfg p q).
Proof. unfold save_map_dem. keeps_tac. Qed.
Lemma keeps_stl_make_copy p n : keeps_stl (make_copy p n).
Proof. unfold make_copy. keeps_tac. Qed.
Lemma keeps_stl_generate_water_resources_obj : keeps_stl (generate_water_resources_obj cfg).
Proof.
  unfold generate_water_resources_obj. pose proof keeps_stl_plane_from_np_nopreview.
  keeps_tac.
Qed.

#[local] Hint Resolve keeps_stl_create_background_textures keeps_stl_subtraction
  keeps_stl_save_map_dem keeps_stl_make_copy keeps_stl_generate_water_resources_obj : effects.

Ltac keep H K :=
  lazymatch type of H with
  | ?m ?w = Ok _ ?w' =>
      assert (K : stl_preview_path w' = stl_preview_path w)
        by (refine ((_ : keeps_stl m) _ _ _ H); keeps_tac)
  end.

Lemma in_log_appends {A} (m : M A) w a w' e :
  appends m -> m w = Ok a w' -> In e (log w) -> In e (log w').
Proof.
  intros Hm Hr Hin. destruct (Hm _ _ _ Hr) as [l ->]. apply in_or_app. left. exact Hin.
Qed.

Lemma plane_from_np_preview_inv dem sp iz rc w a w' :
  plane_from_np cfg dem sp iz true rc w = Ok a w' ->
  exists m, plane_mesh cfg dem iz rc = Some m /\ In (Wrote sp (FMesh m)) (log w') /\
    stl_preview_path w' = Some stl_preview_file.
Proof.
  unfold plane_from_np. intros Hr.
  apply bind_ok_inv in Hr. destruct Hr as [m [w1 [H1 Hr]]].
  apply lift_ok_inv in H1. destruct H1 as [Hm ->].
  apply bind_ok_inv in Hr. destruct Hr as [u [w2 [H2 Hr]]].
  apply write_file_inv in H2. subst w2.
  unfold mesh_to_stl in Hr. apply bind_ok_inv in Hr. destruct Hr as [v [w3 [H3 Hr]]].
  apply write_file_inv in H3. subst w3. injection Hr as _ <-.
  exists m. split; [exact Hm|]. split; [|reflexivity].
  cbn. apply in_or_app. left. apply in_or_app. right. left. reflexivity.
Qed.

Lemma generate_obj_files_present_inv w a w' d :
  fs w output_path = Some (FRaster d) ->
  generate_obj_files cfg w = Ok a w' ->
  exists m, plane_mesh cfg d false (remove_center cfg) = Some m /\
    In (Wrote background_obj_path (FMesh m)) (log w') /\
    stl_preview_path w' = Some stl_preview_file.
Proof.
  intros Hd Hr. unfold generate_obj_files in Hr.
  apply bind_ok_inv in Hr. destruct Hr as [b [w1 [H1 Hr]]].
  unfold is_file in H1. rewrite Hd in H1. injection H1 as <- <-.
  apply bind_ok_inv in Hr. destruct Hr as [d' [w2 [H2 Hr]]].
  apply imread_inv in H2. destruct H2 as [Hd' ->]. rewrite Hd in Hd'.
  injection Hd' as <-. apply plane_from_np_preview_inv in Hr. exact Hr.
Qed.

(** The STL preview path a successful run of [process] leaves. *)
Lemma stl_preview_path_after_process (w0 w : World) :
  process cfg w0 = Ok tt w ->
  dem_file_path cfg <> output_path ->
  (forall n, additional_dem_name cfg = Some n -> join_dirname (dem_file_path cfg) n <> output_path) ->
  stl_preview_path w =
  if generate_background cfg then Some stl_preview_file else stl_preview_path w0.
Proof.
  intros Hr Hmain Hcopy. unfold process in Hr.
  apply bind_ok_inv in Hr. destruct Hr as [u1 [w1 [H1 Hr]]]. keep H1 K1.
  apply bind_ok_inv in Hr. destruct Hr as [u2 [w2 [H2 Hr]]]. keep H2 K2.
  apply bind_ok_inv in Hr. destruct Hr as [u3 [w3 [H3 Hr]]]. keep H3 K3.
  apply bind_ok_inv in Hr. destruct Hr as [u4 [w4 [H4 Hr]]]. keep H4 K4.
  apply bind_ok_inv in Hr. destruct Hr as [u5 [w5 [H5 Hr]]]. keep H5 K5.
  apply bind_ok_inv in Hr. destruct Hr as [c [w6 [H6 Hr]]]. keep H6 K6.
  apply save_map_dem_none_inv in H6. destruct H6 as [d1 [c1 [Hd1 [_ [-> ->]]]]].
  apply bind_ok_inv in Hr. destruct Hr as [u7 [w7 [H7 Hr]]]. keep H7 K7.
  apply bind_ok_inv in Hr. destruct Hr as [u8 [w8 [H8 H9]]]. keep H9 K9.
  assert (Hout : fs w7 output_path = Some (FRaster d1)).
  { assert (Hpc : preserves output_path
                    (match additional_dem_name cfg with
                     | Some name => make_copy (dem_file_path cfg) name
                     | None => ret tt end)).
    { destruct (additional_dem_name cfg) as [n|] eqn:En.
      - apply preserves_make_copy. intros E. apply (Hcopy n eq_refl). symmetry. exact E.
      - apply preserves_ret. }
    rewrite (Hpc _ _ _ H7). rewrite fs_wrote_other by (intros E; apply Hmain; symmetry; exact E).
    rewrite fs_removed_other by (intros E; apply Hmain; symmetry; exact E). exact Hd1. }
  rewrite K9.
  destruct (generate_background cfg).
  - destruct (generate_obj_files_present_inv _ _ _ _ Hout H8) as [m [_ [_ Hs]]]. exact Hs.
  - unfold ret in H8. injection H8 as _ <-. rewrite K7, K6, K5, K4, K3, K2, K1. reflexivity.
Qed.

(** After a successful [Background.process], the recorded STL preview path
    is [previews/background_dem.stl] when the background mesh is generated,
    and is left as it was otherwise (the water meshes make no preview).
    The main DEM and the additional DEM copy must not be written over
    [background/full.png]. *)
Theorem process_stl_preview_path (w0 w : World) :
  process cfg w0 = Ok tt w ->
  dem_file_path cfg <> output_path ->
  (forall n, additional_dem_name cfg = Some n -> join_dirname (dem_file_path cfg) n <> output_path) ->
  stl_preview_path w =
  if generate_background cfg then Some stl_preview_file else stl_preview_path w0.
Proof. exact (stl_preview_path_after_process w0 w). Qed.

Lemma appends_copy_step :
  appends (match additional_dem_name cfg with
           | Some name => make_copy (dem_file_path cfg) name
           | None => ret tt end).
Proof. pose proof appends_make_copy. appends_tac. Qed.

Lemma appends_obj_step :
  appends (if generate_background cfg then generate_obj_files cfg else ret tt).
Proof. pose proof appends_generate_obj_files. appends_tac. Qed.

Lemma appends_water_step :
  appends (if generate_water cfg then generate_water_resources_obj cfg else ret tt).
Proof. pose proof appends_generate_water_resources_obj. appends_tac. Qed.

Lemma in_log_wrote w p f : In (Wrote p f) (log (wrote w p f)).
Proof. unfold wrote. cbn [log]. apply in_or_app. right. left. reflexivity. Qed.

(** When [generate_background] is set, a successful [Background.process]
    writes the terrain mesh [background/full.obj] built (without the zero
    cells, with the configured center removal) from the same raster [d1]
    whose centered cutout, resized to [(map_size + 1) x (map_size + 1)], is
    written as the game's main DEM. The main DEM and its additional copy
    must not be written over [background/full.png]. *)
Theorem process_terrain_mesh_matches_main_dem (w0 w : World) :
  process cfg w0 = Ok tt w ->
  generate_background cfg = true ->
  dem_file_path cfg <> output_path ->
  (forall n, additional_dem_name cfg = Some n -> join_dirname (dem_file_path cfg) n <> output_path) ->
  exists d1 c1 m,
    cut_out_np d1 (Nat.div (map_size cfg) 2) ReturnCutout = Some c1 /\
    In (Wrote (dem_file_path cfg)
          (FRaster (cv2_resize_linear c1 (S (map_size cfg)) (S (map_size cfg))))) (log w) /\
    plane_mesh cfg d1 false (remove_center cfg) = Some m /\
    In (Wrote background_obj_path (FMesh m)) (log w).
Proof.
  intros Hr Hgb Hmain Hcopy. apply process_prefix_inv in Hr.
  destruct Hr as [w1 [w2 [d0 [c0 [w5 [d1 [c1 [w6
    [_ [_ [_ [_ [_ [_ [Hd1 [Hc1 [Hw6 Htail]]]]]]]]]]]]]]]]].
  apply bind_ok_inv in Htail. destruct Htail as [u7 [w7 [H7 Htail]]].
  apply bind_ok_inv in Htail. destruct Htail as [u8 [w8 [H8 H9]]].
  assert (Hout : fs w7 output_path = Some (FRaster d1)).
  { assert (Hpc : preserves output_path
                    (match additional_dem_name cfg with
                     | Some name => make_copy (dem_file_path cfg) name
                     | None => ret tt end)).
    { destruct (additional_dem_name cfg) as [n|] eqn:En.
      - apply preserves_make_copy. intros E. apply (Hcopy n eq_refl). symmetry. exact E.
      - apply preserves_ret. }
    rewrite (Hpc _ _ _ H7), Hw6. rewrite fs_wrote_other by (intros E; apply Hmain; symmetry; exact E).
    rewrite fs_removed_other by (intros E; apply Hmain; symmetry; exact E). exact Hd1. }
  pose proof H8 as H8'. rewrite Hgb in H8'.
  destruct (generate_obj_files_present_inv _ _ _ _ Hout H8') as [m [Hm [Hin _]]].
  exists d1, c1, m. split; [exact Hc1|]. split; [|split; [exact Hm|]].
  - apply (in_log_appends _ _ _ _ _ appends_water_step H9).
    apply (in_log_appends _ _ _ _ _ appends_obj_step H8).
    apply (in_log_appends _ _ _ _ _ appends_copy_step H7).
    rewrite Hw6. apply in_log_wrote.
  - apply (in_log_appends _ _ _ _ _ appends_water_step H9). exact Hin.
Qed.

(** With an additional DEM name [n] configured, a successful
    [Background.process] writes the main DEM and, as the very next event, a
    copy with the same content at [n] in the main DEM's directory. *)
Theorem process_additional_dem_copy (w0 w : World) (n : string) :
  process cfg w0 = Ok tt w ->
  additional_dem_name cfg = Some n ->
  exists c1 l1 l3,
    log w = l1 ++ [Wrote (dem_file_path cfg)
                     (FRaster (cv2_resize_linear c1 (S (map_size cfg)) (S (map_size cfg))));
                   Wrote (join_dirname (dem_file_path cfg) n)
                     (FRaster (cv2_resize_linear c1 (S (map_size cfg)) (S (map_size cfg))))]
            ++ l3.
Proof.
  intros Hr Hn. apply process_prefix_inv in Hr.
  destruct Hr as [w1 [w2 [d0 [c0 [w5 [d1 [c1 [w6
    [_ [_ [_ [_ [_ [_ [_ [_ [-> Htail]]]]]]]]]]]]]]]]].
  apply bind_ok_inv in Htail. destruct Htail as [u7 [w7 [H7 Htail]]].
  rewrite Hn in H7. unfold make_copy in H7. apply copyfile_inv in H7.
  destruct H7 as [f [Hf ->]]. unfold wrote in Hf. cbn [fs] in Hf.
  rewrite upd_same in Hf. injection Hf as <-.
  assert (Hap : appends
    ((if generate_background cfg then generate_obj_files cfg else ret tt) ;;;
     (if generate_water cfg then generate_water_resources_obj cfg else ret tt))).
  { apply appends_bind; [exact appends_obj_step|intros _; exact appends_water_step]. }
  destruct (Hap _ _ _ Htail) as [l3 ->].
  exists c1, (log (removed w5 (dem_file_path cfg))), l3.
  unfold wrote. cbn [log]. rewrite <- !app_assoc. reflexivity.
Qed.

(** With a custom background DEM configured but no file at
    [background/full.png], [Background.process] never succeeds: once the
    texture step has run, the copy of the DEM to [not_substracted.png]
    raises [FileNotFoundError] on [background/full.png], before anything else
    is written. *)
Theorem process_custom_background_missing (w0 : World) :
  custom_background cfg = true ->
  fs w0 output_path = None ->
  (forall w1, create_background_textures cfg w0 = Ok tt w1 ->
     process cfg w0 = Raise (FileNotFoundError output_path) w1) /\
  (forall w, process cfg w0 <> Ok tt w).
Proof.
  intros Hc Hf.
  assert (Hrun : forall w1, create_background_textures cfg w0 = Ok tt w1 ->
            process cfg w0 = Raise (FileNotFoundError output_path) w1).
  { intros w1 E.
    assert (Hf1 : fs w1 output_path = None).
    { rewrite (preserves_create_background_textures output_path ltac:(discriminate) _ _ _ E).
      exact Hf. }
    unfold process. unfold bind at 1. rewrite E. rewrite Hc.
    unfold bind at 1, ret. unfold bind at 1, copyfile. rewrite Hf1. reflexivity. }
  split; [exact Hrun|].
  intros w Hr. destruct (create_background_textures cfg w0) as [[] w1|e w1] eqn:E.
  - rewrite (Hrun w1 eq_refl) in Hr. discriminate Hr.
  - unfold process, bind at 1 in Hr. rewrite E in Hr. discriminate Hr.
Qed.

Lemma preserves_generate_water_resources_obj p :
  p <> plane_water_path -> p <> elevated_water_path -> p <> stl_preview_file ->
  preserves p (generate_water_resources_obj cfg).
Proof.
  intros H1 H2 H3. unfold generate_water_resources_obj.
  apply preserves_bind; [auto with effects|]. intros o.
  destruct o as [q|]; [|auto with effects].
  apply preserves_bind; [auto with effects|]. intros water.
  apply preserves_bind; [apply preserves_plane_from_np; assumption|]. intros _.
  apply preserves_bind; [auto with effects|]. intros bg.
  apply preserves_bind; [auto with effects|]. intros e.
  apply preserves_plane_from_np; assumption.
Qed.

End ComponentFacts.

(** [cvRound(side * 0.25)], the side of the image [cv2.resize(image, (0, 0),
    fx=1/4, fy=1/4)] computes (rounding half to even). *)
Definition cv_round_quarter (n : nat) : nat :=
  let q := Nat.div n 4 in
  let r := Nat.modulo n 4 in
  if Nat.ltb r 2 then q
  else if Nat.ltb 2 r then S q
  else if Nat.even q then q else S q.

(** [cv2.resize] asserts that the size it computed is not empty. *)
Definition quarter_resize_ok (r : Raster) : bool :=
  negb (Nat.eqb (cv_round_quarter (cols r)) 0) && negb (Nat.eqb (cv_round_quarter (rows r)) 0).

Lemma cv_round_quarter_zero (n : nat) : cv_round_quarter n = 0%nat <-> (n <= 2)%nat.
Proof.
  destruct n as [|[|[|[|n]]]]; [vm_compute; lia..|].
  assert (Hq : (1 <= Nat.div (S (S (S (S n)))) 4)%nat).
  { apply (Nat.div_le_lower_bound _ 4 1); lia. }
  split; [|lia]. unfold cv_round_quarter.
  destruct (Nat.ltb _ 2); [lia|]. destruct (Nat.ltb 2 _); [discriminate|].
  destruct (Nat.even _); [lia|discriminate].
Qed.

Lemma quarter_resize_ok_iff (r : Raster) :
  quarter_resize_ok r = true <-> (3 <= cols r /\ 3 <= rows r)%nat.
Proof.
  unfold quarter_resize_ok. rewrite andb_true_iff, !negb_true_iff, !Nat.eqb_neq,
    !cv_round_quarter_zero. lia.
Qed.

(** ** Previews ([Background.previews], lines 357-461) *)

Section Previews.
Context `{Externals} (cfg : Config).

(** [cv2.imread(path, cv2.IMREAD_GRAYSCALE)] then [cv2.cvtColor(.., GRAY2RGB)]. *)
Variable gray_rgb : Raster -> Raster.
(** [cv2.imread(path, cv2.IMREAD_GRAYSCALE)], [cv2.normalize] to [0, 255] and
    [cv2.applyColorMap(.., COLORMAP_JET)]. *)
Variable colored_jet : Raster -> Raster.
(** [cv2.resize(.., fx=1/4, fy=1/4)], [cv2.normalize] to [uint8] and
    [cv2.cvtColor(.., GRAY2BGR)]. *)
Variable background_preview : Raster -> Raster.

Lemma bind_ok_step {A B} (m : M A) (k : A -> M B) w a w1 :
  m w = Ok a w1 -> bind m k w = k a w1.
Proof. intros E. unfold bind. rewrite E. reflexivity. Qed.

Definition grayscale_dem_path : string := "previews/dem_grayscale.png".
Definition colored_dem_path : string := "previews/dem_colored.png".
Definition background_dem_preview_path : string := "previews/background_dem.png".

(** [Background.grayscale_preview]: [cvtColor] raises on the [None] that
    [imread] returns for a missing file. *)
Definition grayscale_preview (image_path : string) : M string :=
  dem_data <- imread image_path ;;
  write_file grayscale_dem_path (FRaster (gray_rgb dem_data)) ;;;
  ret grayscale_dem_path.

(** [Background.colored_preview]: [dem_data.shape] raises on [None]. *)
Definition colored_preview (image_path : string) : M string :=
  dem_data <- imread image_path ;;
  write_file colored_dem_path (FRaster (colored_jet dem_data)) ;;;
  ret colored_dem_path.

(** [Background.dem_previews] *)
Definition dem_previews (image_path : string) : M (list string) :=
  g <- grayscale_preview image_path ;;
  c <- colored_preview image_path ;;
  ret [g; c].

Definition get_stl_preview_path : M (option string) :=
  fun w => Ok (stl_preview_path w) w.

(** [if self.stl_preview_path: preview_paths.append(self.stl_preview_path)] *)
Definition stl_preview_entry (p : option string) : list string :=
  match p with
  | Some s => if String.eqb s "" then [] else [s]
  | None => []
  end.

(** [Background.previews]: the DEM previews of the game's DEM, the preview
    of the background DEM ([self.dem.dem_path], i.e. [background/full.png]),
    whose quarter-size resize raises (here [RuntimeError]) on a side of at
    most 2 pixels, and the STL preview when one was recorded. *)
Definition previews : M (list string) :=
  preview_paths <- dem_previews (dem_file_path cfg) ;;
  background_dem_preview_image <- imread output_path ;;
  lift (if quarter_resize_ok background_dem_preview_image then Some tt else None) ;;;
  write_file background_dem_preview_path
    (FRaster (background_preview background_dem_preview_image)) ;;;
  stl <- get_stl_preview_path ;;
  ret (preview_paths ++ [background_dem_preview_path] ++ stl_preview_entry stl).

(** The writes and the result of [previews] when its inputs are readable. *)
Lemma previews_ok_writes (w : World) (d b : Raster) :
  fs w (dem_file_path cfg) = Some (FRaster d) ->
  fs w output_path = Some (FRaster b) ->
  (3 <= rows b)%nat -> (3 <= cols b)%nat ->
  dem_file_path cfg <> grayscale_dem_path ->
  exists w', previews w =
    Ok ([grayscale_dem_path; colored_dem_path; background_dem_preview_path] ++
        stl_preview_entry (stl_preview_path w)) w' /\
    log w' = log w ++ [Wrote grayscale_dem_path (FRaster (gray_rgb d));
                       Wrote colored_dem_path (FRaster (colored_jet d));
                       Wrote background_dem_preview_path (FRaster (background_preview b))] /\
    stl_preview_path w' = stl_preview_path w.
Proof.
  intros Hd Hb Hrows Hcols Hne.
  set (w1 := wrote w grayscale_dem_path (FRaster (gray_rgb d))).
  set (w2 := wrote w1 colored_dem_path (FRaster (colored_jet d))).
  assert (H1 : grayscale_preview (dem_file_path cfg) w = Ok grayscale_dem_path w1).
  { unfold grayscale_preview, bind, imread. rewrite Hd. reflexivity. }
  assert (H2 : colored_preview (dem_file_path cfg) w1 = Ok colored_dem_path w2).
  { unfold colored_preview, bind, imread, w1. rewrite fs_wrote_other by exact Hne.
    rewrite Hd. reflexivity. }
  assert (H3 : dem_previews (dem_file_path cfg) w = Ok [grayscale_dem_path; colored_dem_path] w2).
  { unfold dem_previews. rewrite (bind_ok_step _ _ _ _ _ H1).
    rewrite (bind_ok_step _ _ _ _ _ H2). reflexivity. }
  assert (H4 : imread output_path w2 = Ok b w2).
  { unfold imread, w2, w1. rewrite !fs_wrote_other by discriminate. rewrite Hb. reflexivity. }
  assert (H5 : lift (if quarter_resize_ok b then Some tt else None) w2 = Ok tt w2).
  { assert (Hok : quarter_resize_ok b = true) by (apply quarter_resize_ok_iff; lia).
    rewrite Hok. reflexivity. }
  unfold previews. rewrite (bind_ok_step _ _ _ _ _ H3), (bind_ok_step _ _ _ _ _ H4),
    (bind_ok_step _ _ _ _ _ H5).
  eexists. split; [reflexivity|]. unfold w2, w1, wrote. cbn [log stl_preview_path].
  split; [rewrite <- !app_assoc; reflexivity|reflexivity].
Qed.

(** With rasters at the game's DEM path [d] and at [background/full.png]
    [b], the latter at least 3x3 so that its quarter-size resize is not
    empty, [Background.previews] writes the grayscale and the colored preview
    of [d] and the preview of [b], in this order, and returns their three
    paths followed by the recorded STL preview path, if any. *)
Theorem previews_writes_and_lists (w : World) (d b : Raster) :
  fs w (dem_file_path cfg) = Some (FRaster d) ->
  fs w output_path = Some (FRaster b) ->
  (3 <= rows b)%nat -> (3 <= cols b)%nat ->
  dem_file_path cfg <> grayscale_dem_path ->
  exists w', previews w =
    Ok ([grayscale_dem_path; colored_dem_path; background_dem_preview_path] ++
        stl_preview_entry (stl_preview_path w)) w' /\
    log w' = log w ++ [Wrote grayscale_dem_path (FRaster (gray_rgb d));
                       Wrote colored_dem_path (FRaster (colored_jet d));
                       Wrote background_dem_preview_path (FRaster (background_preview b))] /\
    stl_preview_path w' = stl_preview_path w.
Proof. exact (previews_ok_writes w d b). Qed.

(** Without a raster at the game's DEM path, [Background.previews] raises
    in the grayscale preview, before it writes anything. *)
Theorem previews_missing_dem_raises (w : World) :
  (forall d, fs w (dem_file_path cfg) <> Some (FRaster d)) ->
  previews w = Raise RuntimeError w.
Proof.
  intros Hd. unfold previews, dem_previews, grayscale_preview.
  unfold bind at 1. unfold bind at 1. unfold bind at 1, imread at 1.
  destruct (fs w (dem_file_path cfg)) as [[r|m]|] eqn:E.
  - exfalso. exact (Hd r eq_refl).
  - reflexivity.
  - reflexivity.
Qed.

(** When the background DEM at [background/full.png] has a side of at most
    2 pixels, [Background.previews] writes the grayscale and the colored
    preview of the game's DEM and then raises in [cv2.resize], without
    writing the background preview. *)
Theorem previews_small_background_raises (w : World) (d b : Raster) :
  fs w (dem_file_path cfg) = Some (FRaster d) ->
  fs w output_path = Some (FRaster b) ->
  (rows b <= 2 \/ cols b <= 2)%nat ->
  dem_file_path cfg <> grayscale_dem_path ->
  exists w', previews w = Raise RuntimeError w' /\
    log w' = log w ++ [Wrote grayscale_dem_path (FRaster (gray_rgb d));
                       Wrote colored_dem_path (FRaster (colored_jet d))] /\
    fs w' background_dem_preview_path = fs w background_dem_preview_path.
Proof.
  intros Hd Hb Hsmall Hne.
  set (w1 := wrote w grayscale_dem_path (FRaster (gray_rgb d))).
  set (w2 := wrote w1 colored_dem_path (FRaster (colored_jet d))).
  assert (H1 : grayscale_preview (dem_file_path cfg) w = Ok grayscale_dem_path w1).
  { unfold grayscale_preview, bind, imread. rewrite Hd. reflexivity. }
  assert (H2 : colored_preview (dem_file_path cfg) w1 = Ok colored_dem_path w2).
  { unfold colored_preview, bind, imread, w1. rewrite fs_wrote_other by exact Hne.
    rewrite Hd. reflexivity. }
  assert (H3 : dem_previews (dem_file_path cfg) w = Ok [grayscale_dem_path; colored_dem_path] w2).
  { unfold dem_previews. rewrite (bind_ok_step _ _ _ _ _ H1).
    rewrite (bind_ok_step _ _ _ _ _ H2). reflexivity. }
  assert (H4 : imread output_path w2 = Ok b w2).
  { unfold imread, w2, w1. rewrite !fs_wrote_other by discriminate. rewrite Hb. reflexivity. }
  assert (Hko : quarter_resize_ok b = false).
  { destruct (quarter_resize_ok b) eqn:E; [|reflexivity].
    apply quarter_resize_ok_iff in E. lia. }
  exists w2. split.
  - unfold previews. rewrite (bind_ok_step _ _ _ _ _ H3), (bind_ok_step _ _ _ _ _ H4).
    unfold bind at 1. rewrite Hko. reflexivity.
  - split.
    + unfold w2, w1, wrote. cbn [log]. rewrite <- app_assoc. reflexivity.
    + unfold w2, w1. rewrite !fs_wrote_other by discriminate. reflexivity.
Qed.

(** After a successful [Background.process] that generated the background
    mesh, [Background.previews] succeeds and lists the grayscale, colored
    and background previews followed by the STL preview
    [previews/background_dem.stl]. The game's DEM path is none of the files
    the component writes itself, the additional DEM copy does not land
    on [background/full.png], and the background DEM left there is at least
    3x3 (smaller ones make the quarter-size resize raise). *)
Theorem previews_after_process_lists_stl (w0 w : World) :
  process cfg w0 = Ok tt w ->
  generate_background cfg = true ->
  ~ In (dem_file_path cfg) [output_path; background_obj_path; stl_preview_file;
                            plane_water_path; elevated_water_path; grayscale_dem_path] ->
  (forall n, additional_dem_name cfg = Some n -> join_dirname (dem_file_path cfg) n <> output_path) ->
  (forall b, fs w output_path = Some (FRaster b) -> (3 <= rows b /\ 3 <= cols b)%nat) ->
  exists w', previews w =
    Ok [grayscale_dem_path; colored_dem_path; background_dem_preview_path; stl_preview_file] w'.
Proof.
  intros Hr Hgb Hmain Hcopy Hsize.
  assert (Hne : forall q, In q [output_path; background_obj_path; stl_preview_file;
                                plane_water_path; elevated_water_path; grayscale_dem_path] ->
                          dem_file_path cfg <> q).
  { intros q Hq E. apply Hmain. rewrite E. exact Hq. }
  assert (Hout_main : dem_file_path cfg <> output_path) by (apply Hne; simpl; tauto).
  pose proof (stl_preview_path_after_process cfg w0 w Hr Hout_main Hcopy) as Hstl.
  rewrite Hgb in Hstl.
  apply process_prefix_inv in Hr.
  destruct Hr as [w1 [w2 [d0 [c0 [w5 [d1 [c1 [w6
    [_ [_ [_ [_ [_ [_ [Hd1 [_ [Hw6 Htail]]]]]]]]]]]]]]]]].
  set (out := FRaster (cv2_resize_linear c1 (S (map_size cfg)) (S (map_size cfg)))) in Hw6.
  apply bind_ok_inv in Htail. destruct Htail as [u7 [w7 [H7 Htail]]].
  apply bind_ok_inv in Htail. destruct Htail as [u8 [w8 [H8 H9]]].
  assert (M6 : fs w6 (dem_file_path cfg) = Some out).
  { rewrite Hw6. unfold wrote. cbn [fs]. apply upd_same. }
  assert (O6 : fs w6 output_path = Some (FRaster d1)).
  { rewrite Hw6. rewrite fs_wrote_other by (intros E; apply Hout_main; symmetry; exact E).
    rewrite fs_removed_other by (intros E; apply Hout_main; symmetry; exact E). exact Hd1. }
  assert (H7' : fs w7 (dem_file_path cfg) = Some out /\ fs w7 output_path = Some (FRaster d1)).
  { destruct (additional_dem_name cfg) as [n|] eqn:En.
    - unfold make_copy in H7. apply copyfile_inv in H7. destruct H7 as [f [Hf ->]].
      rewrite M6 in Hf. injection Hf as <-. split.
      + destruct (string_dec (dem_file_path cfg) (join_dirname (dem_file_path cfg) n)) as [E|E].
        * unfold wrote. cbn [fs]. rewrite <- E. apply upd_same.
        * rewrite fs_wrote_other by exact E. exact M6.
      + rewrite fs_wrote_other by (intros E; apply (Hcopy n eq_refl); symmetry; exact E).
        exact O6.
    - unfold ret in H7. injection H7 as _ <-. split; assumption. }
  destruct H7' as [M7 O7].
  rewrite Hgb in H8.
  assert (M8 : fs w8 (dem_file_path cfg) = Some out).
  { rewrite (preserves_generate_obj_files cfg _ (Hne background_obj_path ltac:(simpl; tauto))
               (Hne stl_preview_file ltac:(simpl; tauto)) _ _ _ H8). exact M7. }
  assert (O8 : fs w8 output_path = Some (FRaster d1)).
  { rewrite (preserves_generate_obj_files cfg output_path ltac:(discriminate)
               ltac:(discriminate) _ _ _ H8). exact O7. }
  assert (M9 : fs w (dem_file_path cfg) = Some out /\ fs w output_path = Some (FRaster d1)).
  { destruct (generate_water cfg).
    - rewrite (preserves_generate_water_resources_obj cfg (dem_file_path cfg)
                 (Hne plane_water_path ltac:(simpl; tauto))
                 (Hne elevated_water_path ltac:(simpl; tauto))
                 (Hne stl_preview_file ltac:(simpl; tauto)) _ _ _ H9).
      rewrite (preserves_generate_water_resources_obj cfg output_path
                 ltac:(discriminate) ltac:(discriminate) ltac:(discriminate) _ _ _ H9).
      split; assumption.
    - unfold ret in H9. injection H9 as <-. split; assumption. }
  destruct M9 as [M9 O9]. destruct (Hsize _ O9) as [Hrows Hcols].
  destruct (previews_ok_writes w _ _ M9 O9 Hrows Hcols (Hne grayscale_dem_path ltac:(simpl; tauto)))
    as [w' [Hp _]].
  exists w'. rewrite Hp, Hstl. reflexivity.
Qed.

End Previews.

(** ** Further properties of the triangulation, the compositing, the
    subtraction and the DEM copy *)

Lemma fold_left_max_ge (l : list Z) (x y : Z) :
  In y (x :: l) -> y <= fold_left Z.max l x.
Proof.
  revert x y; induction l as [|a l IH]; intros x y Hy; simpl.
  - destruct Hy as [->|[]]; lia.
  - destruct Hy as [->|[->|Hy]].
    + transitivity (Z.max y a); [lia|]. apply IH. left; reflexivity.
    + transitivity (Z.max x y); [lia|]. apply IH. left; reflexivity.
    + apply IH. right; exact Hy.
Qed.

Lemma fold_left_min_le (l : list Z) (x y : Z) :
  In y (x :: l) -> fold_left Z.min l x <= y.
Proof.
  revert x y; induction l as [|a l IH]; intros x y Hy; simpl.
  - destruct Hy as [->|[]]; lia.
  - destruct Hy as [->|[->|Hy]].
    + transitivity (Z.min y a); [|lia]. apply IH. left; reflexivity.
    + transitivity (Z.min x y); [|lia]. apply IH. left; reflexivity.
    + apply IH. right; exact Hy.
Qed.

Lemma in_ravel (r : Raster) i j :
  (i < rows r)%nat -> (j < cols r)%nat -> In (px r i j) (ravel r).
Proof.
  intros Hi Hj. unfold ravel. apply in_flat_map. exists i.
  split; [apply in_seq; lia|]. apply in_map. apply in_seq; lia.
Qed.

Lemma raster_max_ge (r : Raster) m i j :
  raster_max r = Some m -> (i < rows r)%nat -> (j < cols r)%nat -> px r i j <= m.
Proof.
  unfold raster_max. intros Hm Hi Hj. pose proof (in_ravel r i j Hi Hj) as Hin.
  destruct (ravel r) as [|x l]; [destruct Hin|]. injection Hm as <-.
  apply fold_left_max_ge. exact Hin.
Qed.

Lemma raster_min_le (r : Raster) m i j :
  raster_min r = Some m -> (i < rows r)%nat -> (j < cols r)%nat -> m <= px r i j.
Proof.
  unfold raster_min. intros Hm Hi Hj. pose proof (in_ravel r i j Hi Hj) as Hin.
  destruct (ravel r) as [|x l]; [destruct Hin|]. injection Hm as <-.
  apply fold_left_min_le. exact Hin.
Qed.

(** The triangulation of [plane_from_np] yields one vertex per pixel, and
    every corner of every face it emits is the index of one of these
    vertices (whatever [include_zeros] is). *)
Theorem triangulate_faces_index_vertices (include_zeros : bool) (dem : Raster) vs fs :
  triangulate include_zeros dem = Some (vs, fs) ->
  length vs = (rows dem * cols dem)%nat /\
  forall a b c, In (a, b, c) fs -> (a < length vs /\ b < length vs /\ c < length vs)%nat.
Proof.
  unfold triangulate. destruct (raster_max dem) as [m|]; [|discriminate].
  destruct (raster_max (invert dem m)) as [g|]; [|discriminate].
  intros [= <- <-]. rewrite length_grid_vertices. cbn [rows cols invert].
  split; [reflexivity|].
  intros a b c Hf. unfold grid_faces in Hf. apply in_flat_map in Hf.
  destruct Hf as [i [Hi Hf]]. apply in_flat_map in Hf. destruct Hf as [j [Hj Hf]].
  apply in_seq in Hi, Hj. unfold cell_faces in Hf. cbn [rows cols invert] in Hi, Hj, Hf.
  destruct (_ && _); [destruct Hf|].
  assert (Hr : ((i + 2) * cols dem <= rows dem * cols dem)%nat)
    by (apply Nat.mul_le_mono_r; lia).
  destruct Hf as [Hf|[Hf|[]]]; injection Hf as <- <- <-; nia.
Qed.

(** Vertex [i * cols + j] of the triangulation is [(j, i, max - dem[i, j])]:
    the heights are inverted against the raster's maximum, so they range
    from [0] (the highest pixel) to [max - min] (the lowest one). *)
Theorem triangulate_vertex_heights (include_zeros : bool) (dem : Raster) vs fs hi lo :
  triangulate include_zeros dem = Some (vs, fs) ->
  raster_max dem = Some hi -> raster_min dem = Some lo ->
  forall i j, (i < rows dem)%nat -> (j < cols dem)%nat ->
    nth_error vs (i * cols dem + j) = Some (Z.of_nat j, Z.of_nat i, hi - px dem i j) /\
    0 <= hi - px dem i j <= hi - lo.
Proof.
  intros Ht Hhi Hlo i j Hi Hj. unfold triangulate in Ht. rewrite Hhi in Ht.
  rewrite (ground_of_invert dem hi lo Hlo) in Ht. injection Ht as <- _.
  split; [exact (nth_error_grid_vertices (invert dem hi) i j Hi Hj)|].
  pose proof (raster_max_ge dem hi i j Hhi Hi Hj).
  pose proof (raster_min_le dem lo i j Hlo Hi Hj). lia.
Qed.

Lemma eqb_sub_cancel (m a b : Z) : Z.eqb (m - a) (m - b) = Z.eqb a b.
Proof. destruct (Z.eqb_spec (m - a) (m - b)), (Z.eqb_spec a b); lia. Qed.

(** With [include_zeros = false], the faces of the triangulation are those
    of the full grid minus exactly the cells that have a corner at the
    raster's minimum elevation [lo], in row-major order. *)
Theorem triangulate_excluding_skips_minimum_cells (dem : Raster) lo vs fs :
  raster_min dem = Some lo ->
  triangulate false dem = Some (vs, fs) ->
  fs = flat_map (fun i => flat_map (fun j =>
         let top_left := (i * cols dem + j)%nat in
         if existsb (Z.eqb lo)
              [px dem i j; px dem i (j + 1); px dem (i + 1) j; px dem (i + 1) (j + 1)]
         then []
         else [(top_left, top_left + cols dem, top_left + cols dem + 1);
               (top_left, top_left + cols dem + 1, top_left + 1)]%nat)
       (seq 0 (cols dem - 1))) (seq 0 (rows dem - 1)).
Proof.
  intros Hlo Ht. unfold triangulate in Ht. destruct (raster_max dem) as [m|]; [|discriminate].
  rewrite (ground_of_invert dem m lo Hlo) in Ht. injection Ht as _ <-.
  unfold grid_faces. cbn [rows cols invert].
  apply flat_map_ext. intros i. apply flat_map_ext. intros j.
  unfold cell_faces, invert. cbn [rows cols px existsb negb].
  rewrite !eqb_sub_cancel, andb_true_r. reflexivity.
Qed.

Lemma fold_sum_nonneg (ls : list Raster) i j :
  (forall l, In l ls -> 0 <= px l i j) -> 0 <= fold_right Z.add 0 (map (fun l => px l i j) ls).
Proof.
  induction ls as [|l ls IH]; intros H; simpl; [lia|].
  assert (0 <= px l i j) by (apply H; left; reflexivity).
  assert (0 <= fold_right Z.add 0 (map (fun l => px l i j) ls))
    by (apply IH; intros l' Hl'; apply H; right; exact Hl'). lia.
Qed.

Lemma merge_layers_sum (n : nat) (acc : Raster) (layers : list Raster) :
  rows acc = n -> cols acc = n ->
  (forall i j, (i < n)%nat -> (j < n)%nat -> 0 <= px acc i j <= 255) ->
  (forall l, In l layers -> rows l = n /\ cols l = n /\
     forall i j, (i < n)%nat -> (j < n)%nat -> 0 <= px l i j <= 255) ->
  exists c, merge_layers acc layers = Some c /\ rows c = n /\ cols c = n /\
    forall i j, (i < n)%nat -> (j < n)%nat ->
      px c i j = Z.min 255 (px acc i j + fold_right Z.add 0 (map (fun l => px l i j) layers)).
Proof.
  revert acc; induction layers as [|l ls IH]; intros acc Hr Hc Hacc Hl.
  - exists acc. simpl. repeat split; auto. intros i j Hi Hj.
    specialize (Hacc i j Hi Hj). lia.
  - destruct (Hl l (or_introl eq_refl)) as [Hlr [Hlc Hlv]].
    simpl merge_layers. unfold cv2_add. rewrite Hr, Hc, Hlr, Hlc, !Nat.eqb_refl.
    cbn [andb].
    destruct (IH (mkRaster n n (fun i j => sat_u8 (px acc i j + px l i j))))
      as [c [Hm [Hcr [Hcc Hpx]]]].
    + reflexivity.
    + reflexivity.
    + intros i j Hi Hj. cbn [px]. unfold sat_u8. lia.
    + intros l' Hl'. apply Hl. right. exact Hl'.
    + exists c. split; [exact Hm|]. split; [exact Hcr|]. split; [exact Hcc|].
      intros i j Hi Hj. rewrite Hpx by assumption. cbn [px map fold_right].
      assert (Hs : 0 <= fold_right Z.add 0 (map (fun l => px l i j) ls)).
      { apply fold_sum_nonneg. intros l' Hl'. apply (Hl l' (or_intror Hl')); assumption. }
      specialize (Hacc i j Hi Hj). specialize (Hlv i j Hi Hj). unfold sat_u8. lia.
Qed.

Lemma merge_layers_bad_shape (n : nat) (acc : Raster) (layers : list Raster) :
  rows acc = n -> cols acc = n ->
  (exists l, In l layers /\ (rows l <> n \/ cols l <> n)) ->
  merge_layers acc layers = None.
Proof.
  revert acc; induction layers as [|l ls IH]; intros acc Hr Hc [l' [Hin Hbad]];
    [destruct Hin|].
  simpl merge_layers. unfold cv2_add. rewrite Hr, Hc.
  destruct (Nat.eqb_spec n (rows l)) as [Elr|Elr];
    destruct (Nat.eqb_spec n (cols l)) as [Elc|Elc]; cbn [andb]; try reflexivity.
  apply IH; [reflexivity|reflexivity|].
  destruct Hin as [<-|Hin]; [destruct Hbad; congruence|].
  exists l'. split; assumption.
Qed.

(** [create_background_textures] composites its water layers onto a
    [size x size] black image: when every layer has that shape and [uint8]
    values, each pixel of the result is the sum of the layers' pixels
    saturated at 255, whatever the number of layers; a layer of another
    shape makes [cv2.add] raise. *)
Theorem composite_saturated_sum (n : nat) (layers : list Raster) :
  ((forall l, In l layers -> rows l = n /\ cols l = n /\
      forall i j, (i < n)%nat -> (j < n)%nat -> 0 <= px l i j <= 255) ->
   exists c, composite n layers = Some c /\ rows c = n /\ cols c = n /\
     forall i j, (i < n)%nat -> (j < n)%nat ->
       px c i j = Z.min 255 (fold_right Z.add 0 (map (fun l => px l i j) layers))) /\
  ((exists l, In l layers /\ (rows l <> n \/ cols l <> n)) -> composite n layers = None).
Proof.
  split.
  - intros Hl. destruct (merge_layers_sum n (const_raster n n 0) layers eq_refl eq_refl)
      as [c [Hm [Hr [Hc Hpx]]]]; [intros; simpl; lia|exact Hl|].
    exists c. split; [exact Hm|]. split; [exact Hr|]. split; [exact Hc|].
    intros i j Hi Hj. rewrite Hpx by assumption. reflexivity.
  - intros Hbad. apply (merge_layers_bad_shape n); [reflexivity|reflexivity|exact Hbad].
Qed.

(** The depth subtraction lowers exactly the pixels whose whole in-image
    3x3 neighbourhood lies in the water mask (value 255), by the depth
    modulo [2^16]; every other pixel keeps its elevation. *)
Theorem subtract_depth_selects_submerged (water dem : Raster) (d : Z) (r : Raster) :
  subtract_depth water dem d = Some r ->
  rows r = rows dem /\ cols r = cols dem /\
  forall i j, (i < rows dem)%nat -> (j < cols dem)%nat ->
    ((forall a b, (i - 1 <= a <= i + 1)%nat -> (j - 1 <= b <= j + 1)%nat ->
        (a < rows dem)%nat -> (b < cols dem)%nat -> px water a b = 255) ->
     px r i j = (px dem i j - d) mod u16_modulus) /\
    ((exists a b, (i - 1 <= a <= i + 1)%nat /\ (j - 1 <= b <= j + 1)%nat /\
        (a < rows dem)%nat /\ (b < cols dem)%nat /\ px water a b <> 255) ->
     px r i j = px dem i j).
Proof.
  unfold subtract_depth. cbv zeta. intros H.
  change (rows (erode 1 1 (eq_mask 255 water))) with (rows water) in H.
  change (cols (erode 1 1 (eq_mask 255 water))) with (cols water) in H.
  destruct (Nat.eqb_spec (rows water) (rows dem)) as [Er|Er];
    destruct (Nat.eqb_spec (cols water) (cols dem)) as [Ec|Ec];
    cbn [andb negb] in H; try discriminate H.
  destruct (negb _); [discriminate H|]. injection H as <-.
  split; [reflexivity|]. split; [reflexivity|].
  intros i j Hi Hj. cbn [px].
  change (fold_right Z.min 255 ?l) with
    (fold_right Z.min 255
       (flat_map (fun a => map (fun b => px (eq_mask 255 water) a b)
                                (window (cols (eq_mask 255 water)) j 1))
                 (window (rows (eq_mask 255 water)) i 1))).
  set (m := eq_mask 255 water).
  assert (Hr : rows m = rows dem) by exact Er. assert (Hc : cols m = cols dem) by exact Ec.
  set (l := flat_map (fun a => map (fun b => px m a b) (window (cols m) j 1))
                     (window (rows m) i 1)).
  split.
  - intros Hall. rewrite (fold_min_all_one l).
    + reflexivity.
    + intros v Hv. apply in_morph_list in Hv. destruct Hv as [a [b [Ha [Hb ->]]]].
      rewrite Hr, Hc, in_window in *. unfold m, eq_mask. cbn [px].
      rewrite Hall by lia. reflexivity.
    + intros He. assert (Hin : In (px m i j) l).
      { apply in_morph_list. exists i, j. rewrite Hr, Hc, !in_window. repeat split; lia. }
      fold l in He. rewrite He in Hin. destruct Hin.
  - intros [a [b [Ha [Hb [Har [Hbc Hne]]]]]]. rewrite (fold_min_has_zero l).
    + reflexivity.
    + intros v Hv. apply in_morph_list in Hv. destruct Hv as [a' [b' [_ [_ ->]]]].
      unfold m, eq_mask. cbn [px]. destruct (_ =? _); lia.
    + assert (Hz : px m a b = 0).
      { unfold m, eq_mask. cbn [px]. apply Z.eqb_neq in Hne. rewrite Hne. reflexivity. }
      rewrite <- Hz. apply in_morph_list. exists a, b. rewrite Hr, Hc, !in_window.
      repeat split; lia.
Qed.





(** ** Sizes of [Background.preprocess] (lines 37-50) *)

(** [background_size = map_size + BACKGROUND_DISTANCE * 2] and
    [rotated_size = int(background_size * output_size_multiplier)], with the
    multiplier [1.5] when the map is rotated ([if self.rotation]) and [1]
    otherwise. *)
Definition preprocess_sizes (map_size background_distance : nat) (rotation : Z) : nat * Z :=
  let output_size_multiplier := if Z.eqb rotation 0 then 1%Q else (3 # 2)%Q in
  let background_size := (map_size + background_distance * 2)%nat in
  let rotated_size := py_int (inject_Z (Z.of_nat background_size) * output_size_multiplier) in
  (background_size, rotated_size).

Lemma py_int_one (z : Z) : 0 <= z -> py_int (inject_Z z * 1) = z.
Proof.
  intros Hz. unfold py_int, inject_Z, Qmult, Qle_bool, Qfloor. cbn.
  rewrite !Z.mul_1_r, Z.div_1_r. destruct (Z.leb_spec 0 z); [reflexivity|lia].
Qed.

Lemma py_int_three_halves (z : Z) : 0 <= z -> py_int (inject_Z z * (3 # 2)) = z + z / 2.
Proof.
  intros Hz. unfold py_int, inject_Z, Qmult, Qle_bool, Qfloor. cbn.
  destruct (Z.leb_spec 0 (z * 3 * 1)); [|lia].
  replace (z * 3) with (z * 2 + z) by ring. rewrite Z.div_add_l by lia. reflexivity.
Qed.

(** The background DEM is requested [BACKGROUND_DISTANCE] pixels beyond the
    map on each side; for a rotated map its size is one and a half times
    that, truncated: [bg + bg // 2]. *)
Theorem preprocess_rotated_size (map_size background_distance : nat) (rotation : Z) :
  let bg := (map_size + 2 * background_distance)%nat in
  preprocess_sizes map_size background_distance rotation =
  (bg, Z.of_nat (if Z.eqb rotation 0 then bg else bg + bg / 2)%nat).
Proof.
  intros bg. unfold preprocess_sizes.
  replace (map_size + background_distance * 2)%nat with bg by (unfold bg; lia).
  f_equal. destruct (Z.eqb rotation 0).
  - apply py_int_one. lia.
  - rewrite py_int_three_halves by lia. rewrite Nat2Z.inj_add, Nat2Z.inj_div. reflexivity.
Qed.

(** ** [Map.generate] (map.py, lines 54-78) *)

Section MapGenerate.
Variables (St Cls Comp : Type).

(** [game_component(self.game, ...)]: constructing a component (outside the
    [try]) yields it and the new state, or raises ([inr]). *)
Variable construct : Cls -> St -> (Comp * St) + St.
(** [component.process()]: the new state, or the state when it raises. *)
Variable process_component : Comp -> St -> St + St.
(** [self.logger.error("Error processing component %s: %s", ...)] *)
Variable log_error : Comp -> St -> St.

(** Outcome of [Map.generate] with the resulting [self.components]. *)
Inductive GenResult :=
  | Generated (components : list Comp) (s : St)
  | ConstructRaised (components : list Comp) (s : St)
  | ProcessRaised (components : list Comp) (failed : Comp) (s : St).

(** The loop over [self.game.components]: a component is appended to
    [self.components] only after its [process()] returned; an exception of
    [process()] is logged and re-raised, which ends the loop. *)
Fixpoint generate (classes : list Cls) (components : list Comp) (s : St) : GenResult :=
  match classes with
  | [] => Generated components s
  | game_component :: rest =>
      match construct game_component s with
      | inr s1 => ConstructRaised components s1
      | inl (component, s1) =>
          match process_component component s1 with
          | inr s2 => ProcessRaised components component (log_error component s2)
          | inl s2 => generate rest (components ++ [component]) s2
          end
      end
  end.

(** Generating [classes1 ++ classes2] is generating [classes1] and then, if
    that returned, [classes2] from the components and state it left. *)
Lemma generate_app (classes1 classes2 : list Cls) (components : list Comp) (s : St) :
  generate (classes1 ++ classes2) components s =
  match generate classes1 components s with
  | Generated cs s' => generate classes2 cs s'
  | r => r
  end.
Proof.
  revert components s; induction classes1 as [|g gs IH]; intros components s; simpl;
    [reflexivity|].
  destruct (construct g s) as [[c s1]|s1]; [|reflexivity].
  destruct (process_component c s1) as [s2|s2]; [apply IH|reflexivity].
Qed.

(** When a component's [process()] raises, [Map.generate] logs the error
    and re-raises: [self.components] holds exactly the components processed
    before it, and no later component is constructed or processed. *)
Theorem generate_stops_at_failing_component (classes1 classes2 : list Cls) (g : Cls)
    (components cs : list Comp) (s s1 s2 s3 : St) (c : Comp) :
  generate classes1 components s = Generated cs s1 ->
  construct g s1 = inl (c, s2) ->
  process_component c s2 = inr s3 ->
  generate (classes1 ++ g :: classes2) components s = ProcessRaised cs c (log_error c s3).
Proof.
  intros H1 H2 H3. rewrite generate_app, H1. simpl. rewrite H2, H3. reflexivity.
Qed.

(** A [Map.generate] that returns has appended to [self.components] one
    component per component class, in the order of the classes, each built
    by the constructor of its class. *)
Theorem generate_one_component_per_class (classes : list Cls) (components cs : list Comp)
    (s s' : St) :
  generate classes components s = Generated cs s' ->
  exists built, cs = components ++ built /\
    Forall2 (fun g c => exists t t', construct g t = inl (c, t')) classes built.
Proof.
  revert components s; induction classes as [|g gs IH]; intros components s Hg; simpl in Hg.
  - injection Hg as <- _. exists []. split; [symmetry; apply app_nil_r|constructor].
  - destruct (construct g s) as [[c s1]|s1] eqn:Ec; [|discriminate Hg].
    destruct (process_component c s1) as [s2|s2]; [|discriminate Hg].
    destruct (IH _ _ Hg) as [built [-> Hb]].
    exists (c :: built). split; [rewrite <- app_assoc; reflexivity|].
    constructor; [exists s, s1; exact Ec|exact Hb].
Qed.

End MapGenerate.


(** ** The I3d component (i3d.py) *)

Module I3dComponent.

Local Open Scope nat_scope.
Local Set Warnings "-register-all".

(** An [xml.etree.ElementTree.Element]: its tag, its attribute dict (in
    insertion order) and its children. *)
Inductive Elem := mkElem (tag : string) (attrib : list (string * string)) (children : list Elem).

Definition elem_tag (e : Elem) : string := match e with mkElem t _ _ => t end.
Definition elem_attrib (e : Elem) : list (string * string) :=
  match e with mkElem _ a _ => a end.

(** [attrib[key] = value] on a dict: a present key keeps its position. *)
Fixpoint set_attr (k v : string) (a : list (string * string)) : list (string * string) :=
  match a with
  | [] => [(k, v)]
  | (k', v') :: t => if String.eqb k k' then (k, v) :: t else (k', v') :: set_attr k v t
  end.

(** [Element.set(key, value)] *)
Definition set_elem (k v : string) (e : Elem) : Elem :=
  match e with mkElem t a cs => mkElem t (set_attr k v a) cs end.

(** An element of a tree is designated by the child indices that lead to it. *)
Definition path : Type := list nat.

Fixpoint index_paths (k : nat) (pss : list (list path)) : list path :=
  match pss with
  | [] => []
  | ps :: rest => map (cons k) ps ++ index_paths (S k) rest
  end.

(** [Element.iter(tag)]: the element itself and all elements below it whose
    tag is [tag], in document (depth-first) order. *)
Fixpoint iter_paths (t : string) (e : Elem) : list path :=
  match e with
  | mkElem tg _ cs =>
      (if String.eqb tg t then [[]] else []) ++ index_paths 0 (map (iter_paths t) cs)
  end.

Fixpoint get_at (p : path) (e : Elem) : option Elem :=
  match p with
  | [] => Some e
  | k :: p' =>
      match e with
      | mkElem _ _ cs => match nth_error cs k with Some c => get_at p' c | None => None end
      end
  end.

Fixpoint modify_nth {A} (k : nat) (f : A -> A) (l : list A) : list A :=
  match l, k with
  | [], _ => []
  | x :: t, 0 => f x :: t
  | x :: t, S k' => x :: modify_nth k' f t
  end.

(** A mutation of the element at [p] in the tree. *)
Fixpoint modify_at (p : path) (f : Elem -> Elem) (e : Elem) : Elem :=
  match p with
  | [] => f e
  | k :: p' => match e with mkElem tg a cs => mkElem tg a (modify_nth k (modify_at p' f) cs) end
  end.

Definition DEFAULT_HEIGHT_SCALE : string := "2000".
Definition DEFAULT_MAX_LOD_DISTANCE : string := "10000".

(** The loops of [I3d.process] (lines 45-62): for each [Scene] of the tree
    and each [TerrainTransformGroup] at or below it, set [heightScale] and
    then [maxLODDistance]. *)
Definition update_terrain (root : Elem) : Elem :=
  fold_left (fun tree scene_path =>
      match get_at scene_path tree with
      | None => tree
      | Some map_elem =>
          fold_left (fun tree terrain_path =>
              let p := scene_path ++ terrain_path in
              modify_at p (set_elem "maxLODDistance" DEFAULT_MAX_LOD_DISTANCE)
                (modify_at p (set_elem "heightScale" DEFAULT_HEIGHT_SCALE) tree))
            (iter_paths "TerrainTransformGroup" map_elem) tree
      end)
    (iter_paths "Scene" root) root.

(** A file of the map directory, as [ET.parse] sees it. *)
Inductive XmlFile := XmlDoc (root : Elem) | Unparsable.

Inductive I3dEvent :=
  | I3dInfo (msg : string)
  | I3dWarning (msg : string)
  | I3dWrote (path : string) (root : Elem).

Record XmlWorld := mkXmlWorld {
  xml_fs : string -> option XmlFile;
  xml_log : list I3dEvent
}.

Inductive I3dExn := I3dFileNotFound (path : string) | I3dParseError.

Inductive I3dResult :=
  | I3dOk (w : XmlWorld)
  | I3dRaise (e : I3dExn) (w : XmlWorld).

Definition xml_emit (w : XmlWorld) (ev : I3dEvent) : XmlWorld :=
  mkXmlWorld (xml_fs w) (xml_log w ++ [ev]).

(** [I3d._update_i3d_file]: only warns when the file is missing. *)
Definition update_i3d_file (p : string) (w : XmlWorld) : XmlWorld :=
  match xml_fs w p with
  | Some _ => w
  | None => xml_emit w (I3dWarning "I3D file not found: %s.")
  end.

(** [I3d.process]; [map_i3d_path] is what [preprocess] obtained ([None] when
    the game does not implement it). *)
Definition process (map_i3d_path : option string) (w : XmlWorld) : I3dResult :=
  match map_i3d_path with
  | None => I3dOk (xml_emit w (I3dInfo "No path to the i3d file was obtained, processing skipped."))
  | Some p =>
      if String.eqb p "" then
        I3dOk (xml_emit w (I3dInfo "No path to the i3d file was obtained, processing skipped."))
      else
        let w1 := update_i3d_file p w in
        match xml_fs w1 p with
        | None => I3dRaise (I3dFileNotFound p) w1
        | Some Unparsable => I3dRaise I3dParseError w1
        | Some (XmlDoc root) =>
            let root' := update_terrain root in
            I3dOk (mkXmlWorld (fun q => if String.eqb q p then Some (XmlDoc root') else xml_fs w1 q)
                              (xml_log w1 ++ [I3dWrote p root']))
        end
  end.

(** *** Facts *)

Definition terrain_attrs (a : list (string * string)) : list (string * string) :=
  set_attr "maxLODDistance" DEFAULT_MAX_LOD_DISTANCE
    (set_attr "heightScale" DEFAULT_HEIGHT_SCALE a).

(** The tag and the attributes of the element at [p], if any. *)
Definition node_at (p : path) (e : Elem) : option (string * list (string * string)) :=
  option_map (fun x => (elem_tag x, elem_attrib x)) (get_at p e).

(** [p] lies strictly below a [Scene] element of the tree. *)
Definition under_scene (root : Elem) (p : path) : bool :=
  existsb (fun n => match get_at (firstn n p) root with
                    | Some s => String.eqb (elem_tag s) "Scene"
                    | None => false
                    end) (seq 0 (length p)).

Inductive Skel := Sk (tag : string) (cs : list Skel).

Fixpoint skel (e : Elem) : Skel :=
  match e with mkElem t _ cs => Sk t (map skel cs) end.

Definition Elem_ind' (P : Elem -> Prop)
    (H : forall t a cs, Forall P cs -> P (mkElem t a cs)) : forall e, P e :=
  fix rec e :=
    match e with
    | mkElem t a cs =>
        H t a cs ((fix go (l : list Elem) : Forall P l :=
                     match l with
                     | [] => Forall_nil P
                     | c :: l' => Forall_cons c (rec c) (go l')
                     end) cs)
    end.

Lemma nth_error_modify_nth {A} (k i : nat) (f : A -> A) (l : list A) :
  nth_error (modify_nth k f l) i =
  if Nat.eqb i k then option_map f (nth_error l i) else nth_error l i.
Proof.
  revert k i; induction l as [|x l IH]; intros k i.
  - destruct k, i; simpl; try reflexivity; destruct (_ =? _); reflexivity.
  - destruct k as [|k], i as [|i]; simpl; try reflexivity; apply IH.
Qed.

Lemma map_modify_nth {A B} (g : A -> B) (k : nat) (f : A -> A) (l : list A) :
  (forall x, g (f x) = g x) -> map g (modify_nth k f l) = map g l.
Proof.
  intros Hf. revert k; induction l as [|x l IH]; intros k; [destruct k; reflexivity|].
  destruct k; simpl; [rewrite Hf|rewrite IH]; reflexivity.
Qed.

Lemma skel_modify_at (p : path) (k v : string) (e : Elem) :
  skel (modify_at p (set_elem k v) e) = skel e.
Proof.
  revert e; induction p as [|i p IH]; intros [t a cs]; [reflexivity|].
  simpl. rewrite map_modify_nth by (intros x; apply IH). reflexivity.
Qed.

Lemma iter_paths_skel (t : string) (e1 e2 : Elem) :
  skel e1 = skel e2 -> iter_paths t e1 = iter_paths t e2.
Proof.
  revert e2. induction e1 as [t1 a1 cs1 IH] using Elem_ind'. intros [t2 a2 cs2] Hs.
  simpl in Hs. injection Hs as <- Hcs. simpl. f_equal. f_equal.
  revert cs2 Hcs. induction IH as [|c cs1 Hc _ IHl]; intros [|c2 cs2] Hcs;
    try discriminate Hcs; [reflexivity|].
  simpl in Hcs. injection Hcs as Hc2 Hcs. simpl. rewrite (Hc c2 Hc2), (IHl cs2 Hcs).
  reflexivity.
Qed.

Lemma get_at_skel (p : path) (e1 e2 : Elem) :
  skel e1 = skel e2 ->
  match get_at p e1, get_at p e2 with
  | Some x, Some y => skel x = skel y
  | None, None => True
  | _, _ => False
  end.
Proof.
  revert e1 e2; induction p as [|i p IH]; intros [t1 a1 cs1] [t2 a2 cs2] Hs; [exact Hs|].
  simpl in Hs. injection Hs as _ Hcs. simpl.
  assert (Hn : option_map skel (nth_error cs1 i) = option_map skel (nth_error cs2 i)).
  { rewrite <- !nth_error_map, Hcs. reflexivity. }
  destruct (nth_error cs1 i) as [c1|], (nth_error cs2 i) as [c2|];
    simpl in Hn; try discriminate Hn; [|exact I].
  injection Hn as Hn. apply IH. exact Hn.
Qed.

Lemma node_at_modify (p q : path) (k v : string) (e : Elem) :
  node_at p (modify_at q (set_elem k v) e) =
  if list_eq_dec Nat.eq_dec p q
  then option_map (fun '(t, a) => (t, set_attr k v a)) (node_at p e)
  else node_at p e.
Proof.
  unfold node_at. revert p e; induction q as [|j q IH]; intros p [t a cs].
  - destruct p as [|i p].
    + destruct (list_eq_dec Nat.eq_dec [] []) as [_|C]; [reflexivity|congruence].
    + destruct (list_eq_dec Nat.eq_dec (i :: p) []) as [C|_]; [discriminate C|reflexivity].
  - destruct p as [|i p].
    + destruct (list_eq_dec Nat.eq_dec [] (j :: q)) as [C|_]; [discriminate C|reflexivity].
    + cbn [modify_at get_at]. rewrite nth_error_modify_nth.
      destruct (Nat.eqb_spec i j) as [->|Hij].
      * specialize (IH p).
        destruct (list_eq_dec Nat.eq_dec (j :: p) (j :: q)) as [E|Hne].
        -- injection E as ->.
           destruct (nth_error cs j) as [c|]; cbn [option_map]; [|reflexivity].
           rewrite IH. destruct (list_eq_dec Nat.eq_dec q q) as [_|C]; [reflexivity|congruence].
        -- destruct (nth_error cs j) as [c|]; cbn [option_map]; [|reflexivity].
           rewrite IH. destruct (list_eq_dec Nat.eq_dec p q) as [->|_]; [congruence|reflexivity].
      * destruct (list_eq_dec Nat.eq_dec (i :: p) (j :: q)) as [E|_];
          [injection E as E _; contradiction|reflexivity].
Qed.

Lemma assoc_set_attr_same (k v : string) (a : list (string * string)) :
  find (fun kv => String.eqb k (fst kv)) (set_attr k v a) = Some (k, v).
Proof.
  induction a as [|[k' v'] a IH]; simpl; [rewrite String.eqb_refl; reflexivity|].
  destruct (String.eqb_spec k k') as [->|Hne]; simpl.
  - rewrite String.eqb_refl. reflexivity.
  - apply String.eqb_neq in Hne. rewrite Hne. exact IH.
Qed.

Lemma assoc_set_attr_other (k k' v : string) (a : list (string * string)) :
  k <> k' ->
  find (fun kv => String.eqb k (fst kv)) (set_attr k' v a) =
  find (fun kv => String.eqb k (fst kv)) a.
Proof.
  intros Hne. induction a as [|[k1 v1] a IH]; simpl.
  - apply String.eqb_neq in Hne. rewrite Hne. reflexivity.
  - destruct (String.eqb_spec k' k1) as [->|Hne1]; simpl.
    + apply String.eqb_neq in Hne. rewrite Hne. reflexivity.
    + destruct (String.eqb k k1); [reflexivity|exact IH].
Qed.

Lemma set_attr_noop (k v : string) (a : list (string * string)) :
  find (fun kv => String.eqb k (fst kv)) a = Some (k, v) -> set_attr k v a = a.
Proof.
  induction a as [|[k1 v1] a IH]; simpl; [discriminate|].
  destruct (String.eqb_spec k k1) as [->|Hne].
  - intros E. injection E as <-. reflexivity.
  - intros E. rewrite IH by exact E. reflexivity.
Qed.

Lemma terrain_attrs_idem (a : list (string * string)) :
  terrain_attrs (terrain_attrs a) = terrain_attrs a.
Proof.
  unfold terrain_attrs at 1.
  rewrite (set_attr_noop "heightScale" DEFAULT_HEIGHT_SCALE).
  - apply set_attr_noop. apply assoc_set_attr_same.
  - unfold terrain_attrs. rewrite assoc_set_attr_other by discriminate.
    apply assoc_set_attr_same.
Qed.

Definition terrain_step (tree : Elem) (p : path) : Elem :=
  modify_at p (set_elem "maxLODDistance" DEFAULT_MAX_LOD_DISTANCE)
    (modify_at p (set_elem "heightScale" DEFAULT_HEIGHT_SCALE) tree).

Lemma node_at_terrain_step (p q : path) (e : Elem) :
  node_at p (terrain_step e q) =
  if list_eq_dec Nat.eq_dec p q
  then option_map (fun '(t, a) => (t, terrain_attrs a)) (node_at p e)
  else node_at p e.
Proof.
  unfold terrain_step. rewrite !node_at_modify.
  destruct (list_eq_dec Nat.eq_dec p q); [|reflexivity].
  destruct (node_at p e) as [[t a]|]; reflexivity.
Qed.

Lemma node_at_fold_terrain (p : path) (ps : list path) (e : Elem) :
  node_at p (fold_left terrain_step ps e) =
  if in_dec (list_eq_dec Nat.eq_dec) p ps
  then option_map (fun '(t, a) => (t, terrain_attrs a)) (node_at p e)
  else node_at p e.
Proof.
  revert e; induction ps as [|q ps IH]; intros e; simpl; [reflexivity|].
  rewrite IH, node_at_terrain_step.
  destruct (in_dec (list_eq_dec Nat.eq_dec) p ps) as [Hin|Hout];
    destruct (list_eq_dec Nat.eq_dec q p) as [Hqp|Hqp];
    destruct (list_eq_dec Nat.eq_dec p q) as [Hpq|Hpq];
    try congruence; try reflexivity.
  subst q. destruct (node_at p e) as [[t a]|]; cbn; [rewrite terrain_attrs_idem|]; reflexivity.
Qed.

Lemma skel_terrain_fold (ps : list path) (e : Elem) :
  skel (fold_left terrain_step ps e) = skel e.
Proof.
  revert e; induction ps as [|q ps IH]; intros e; simpl; [reflexivity|].
  rewrite IH. unfold terrain_step. rewrite !skel_modify_at. reflexivity.
Qed.

(** The elements the loops of [update_terrain] set, computed on the
    original tree. *)
Definition terrain_targets (root : Elem) : list path :=
  flat_map (fun sp => match get_at sp root with
                      | Some s => map (app sp) (iter_paths "TerrainTransformGroup" s)
                      | None => []
                      end) (iter_paths "Scene" root).

Lemma update_terrain_fold (root : Elem) :
  update_terrain root = fold_left terrain_step (terrain_targets root) root.
Proof.
  unfold update_terrain, terrain_targets.
  assert (Hgen : forall sps t, skel t = skel root ->
    fold_left (fun tree scene_path =>
      match get_at scene_path tree with
      | None => tree
      | Some map_elem =>
          fold_left (fun tree terrain_path =>
              let p := scene_path ++ terrain_path in
              modify_at p (set_elem "maxLODDistance" DEFAULT_MAX_LOD_DISTANCE)
                (modify_at p (set_elem "heightScale" DEFAULT_HEIGHT_SCALE) tree))
            (iter_paths "TerrainTransformGroup" map_elem) tree
      end) sps t =
    fold_left terrain_step
      (flat_map (fun sp => match get_at sp root with
                           | Some s => map (app sp) (iter_paths "TerrainTransformGroup" s)
                           | None => []
                           end) sps) t).
  { induction sps as [|sp sps IH]; intros t Ht; simpl; [reflexivity|].
    rewrite fold_left_app.
    pose proof (get_at_skel sp t root Ht) as Hg.
    destruct (get_at sp t) as [x|] eqn:Ex, (get_at sp root) as [y|] eqn:Ey;
      try contradiction.
    - rewrite (iter_paths_skel _ x y Hg).
      assert (Hin : forall l t0,
        fold_left (fun tree terrain_path =>
              let p := sp ++ terrain_path in
              modify_at p (set_elem "maxLODDistance" DEFAULT_MAX_LOD_DISTANCE)
                (modify_at p (set_elem "heightScale" DEFAULT_HEIGHT_SCALE) tree)) l t0 =
        fold_left terrain_step (map (app sp) l) t0).
      { induction l as [|tp l IHl]; intros t0; simpl; [reflexivity|]. apply IHl. }
      rewrite Hin. apply IH. rewrite skel_terrain_fold. exact Ht.
    - simpl. apply IH. exact Ht. }
  apply Hgen. reflexivity.
Qed.

Lemma in_index_paths (k : nat) (pss : list (list path)) (p : path) :
  In p (index_paths k pss) <->
  exists i q ps, p = (k + i)%nat :: q /\ nth_error pss i = Some ps /\ In q ps.
Proof.
  revert k; induction pss as [|ps pss IH]; intros k; simpl.
  - split; [intros []|intros [i [q [ps' [_ [E _]]]]]; destruct i; discriminate E].
  - rewrite in_app_iff, IH, in_map_iff. split.
    + intros [[q [<- Hq]]|[i [q [ps' [-> [Hn Hq]]]]]].
      * exists 0%nat, q, ps. rewrite Nat.add_0_r. auto.
      * exists (S i), q, ps'. rewrite <- plus_n_Sm. auto.
    + intros [[|i] [q [ps' [-> [Hn Hq]]]]].
      * left. injection Hn as <-. exists q. rewrite Nat.add_0_r. auto.
      * right. exists i, q, ps'. rewrite <- plus_n_Sm. auto.
Qed.

Lemma in_iter_paths (t : string) (e : Elem) (p : path) :
  In p (iter_paths t e) <-> exists x, get_at p e = Some x /\ elem_tag x = t.
Proof.
  revert p. induction e as [tg a cs IH] using Elem_ind'. intros p. simpl.
  rewrite in_app_iff, in_index_paths. split.
  - intros [Hp|[i [q [ps [-> [Hn Hq]]]]]].
    + destruct (String.eqb_spec tg t) as [<-|]; [|destruct Hp].
      destruct Hp as [<-|[]]. exists (mkElem tg a cs). auto.
    + rewrite nth_error_map in Hn. simpl.
      destruct (nth_error cs i) as [c|] eqn:Ec; [|discriminate Hn].
      injection Hn as <-. apply (proj1 (Forall_forall _ _) IH c (nth_error_In _ _ Ec)).
      exact Hq.
  - intros [x [Hx Ht]]. destruct p as [|i q].
    + left. injection Hx as <-. simpl in Ht. subst t. rewrite String.eqb_refl. left; reflexivity.
    + right. simpl in Hx. destruct (nth_error cs i) as [c|] eqn:Ec; [|discriminate Hx].
      exists i, q, (iter_paths t c). split; [reflexivity|].
      rewrite nth_error_map, Ec. split; [reflexivity|].
      apply (proj1 (Forall_forall _ _) IH c (nth_error_In _ _ Ec)). exists x. auto.
Qed.

Lemma get_at_app (p q : path) (e : Elem) :
  get_at (p ++ q) e = match get_at p e with Some x => get_at q x | None => None end.
Proof.
  revert e; induction p as [|i p IH]; intros [t a cs]; [reflexivity|].
  simpl. destruct (nth_error cs i); [apply IH|reflexivity].
Qed.

Lemma in_terrain_targets (root : Elem) (p : path) :
  In p (terrain_targets root) <->
  (exists x, get_at p root = Some x /\ elem_tag x = "TerrainTransformGroup"%string) /\
  under_scene root p = true.
Proof.
  unfold terrain_targets, under_scene. rewrite in_flat_map. split.
  - intros [sp [Hsp Hp]]. apply in_iter_paths in Hsp. destruct Hsp as [s [Hs Hts]].
    rewrite Hs in Hp. apply in_map_iff in Hp. destruct Hp as [tp [<- Htp]].
    apply in_iter_paths in Htp. destruct Htp as [x [Hx Htx]].
    split; [exists x; rewrite get_at_app, Hs; auto|].
    apply existsb_exists. exists (length sp). split.
    + apply in_seq. rewrite length_app. destruct tp as [|i tp].
      * simpl in Hx. injection Hx as <-. rewrite Hts in Htx. discriminate Htx.
      * simpl. lia.
    + rewrite firstn_app, Nat.sub_diag, firstn_all. simpl. rewrite app_nil_r, Hs, Hts.
      reflexivity.
  - intros [[x [Hx Htx]] Hu]. apply existsb_exists in Hu. destruct Hu as [n [Hn Hs]].
    apply in_seq in Hn.
    destruct (get_at (firstn n p) root) as [s|] eqn:Es; [|discriminate Hs].
    apply String.eqb_eq in Hs.
    exists (firstn n p). split; [apply in_iter_paths; exists s; auto|].
    rewrite Es. apply in_map_iff. exists (skipn n p). split; [apply firstn_skipn|].
    apply in_iter_paths. exists x. split; [|exact Htx].
    rewrite <- (firstn_skipn n p), get_at_app, Es in Hx. exact Hx.
Qed.

(** [I3d.process]'s loops keep the shape of the tree (tags and children) and
    change only the attributes of the [TerrainTransformGroup] elements that
    lie below a [Scene] element: those get [heightScale] = "2000" and then
    [maxLODDistance] = "10000", once, whatever the number of enclosing
    scenes. *)
Theorem update_terrain_sets_scene_terrain_groups (root : Elem) (p : path) :
  skel (update_terrain root) = skel root /\
  node_at p (update_terrain root) =
  option_map (fun '(t, a) =>
      (t, if String.eqb t "TerrainTransformGroup" && under_scene root p
          then terrain_attrs a else a))
    (node_at p root).
Proof.
  rewrite update_terrain_fold. split; [apply skel_terrain_fold|].
  rewrite node_at_fold_terrain.
  destruct (in_dec (list_eq_dec Nat.eq_dec) p (terrain_targets root)) as [Hin|Hout].
  - apply in_terrain_targets in Hin. destruct Hin as [[x [Hx Ht]] Hu].
    unfold node_at. rewrite Hx. cbn [option_map]. rewrite Ht, Hu. reflexivity.
  - unfold node_at. destruct (get_at p root) as [x|] eqn:Hx; cbn [option_map]; [|reflexivity].
    destruct (String.eqb_spec (elem_tag x) "TerrainTransformGroup") as [Ht|Ht];
      destruct (under_scene root p) eqn:Hu; try reflexivity.
    exfalso. apply Hout. apply in_terrain_targets. split; [exists x; auto|exact Hu].
Qed.

(** A run of [I3d.process] that fails writes nothing: either the file is
    missing (a warning is logged, then [ET.parse] raises FileNotFoundError)
    or it does not parse. *)
Theorem process_raise_writes_nothing (p : option string) (w w' : XmlWorld) (e : I3dExn) :
  process p w = I3dRaise e w' ->
  xml_fs w' = xml_fs w /\
  exists path,
    p = Some path /\
    ((xml_fs w path = None /\ e = I3dFileNotFound path /\
      xml_log w' = xml_log w ++ [I3dWarning "I3D file not found: %s."]) \/
     (xml_fs w path = Some Unparsable /\ e = I3dParseError /\ xml_log w' = xml_log w)).
Proof.
  unfold process. destruct p as [path|]; [|discriminate].
  destruct (String.eqb path ""); [discriminate|].
  unfold update_i3d_file. destruct (xml_fs w path) as [f|] eqn:Ef.
  - rewrite Ef. destruct f as [root|]; [discriminate|].
    intros E. injection E as <- <-. split; [reflexivity|]. exists path. split; [reflexivity|].
    right. auto.
  - cbn [xml_fs xml_emit]. rewrite Ef. intros E. injection E as <- <-.
    split; [reflexivity|]. exists path. split; [reflexivity|]. left. auto.
Qed.

(** A run of [I3d.process] on a non-empty path that succeeds found an XML
    document there, rewrote exactly that file with the updated tree and
    logged the write only (no warning). *)
Theorem process_ok_rewrites_file (path : string) (w w' : XmlWorld) :
  path <> ""%string ->
  process (Some path) w = I3dOk w' ->
  exists root,
    xml_fs w path = Some (XmlDoc root) /\
    xml_fs w' path = Some (XmlDoc (update_terrain root)) /\
    (forall q, q <> path -> xml_fs w' q = xml_fs w q) /\
    xml_log w' = xml_log w ++ [I3dWrote path (update_terrain root)].
Proof.
  intros Hne. unfold process. apply String.eqb_neq in Hne. rewrite Hne.
  unfold update_i3d_file. destruct (xml_fs w path) as [f|] eqn:Ef.
  - rewrite Ef. destruct f as [root|]; [|discriminate].
    intros E. injection E as <-. exists root. cbn [xml_fs xml_log].
    rewrite String.eqb_refl. split; [reflexivity|]. split; [reflexivity|]. split; [|reflexivity].
    intros q Hq. apply String.eqb_neq in Hq. rewrite Hq. reflexivity.
  - cbn [xml_fs xml_emit]. rewrite Ef. discriminate.
Qed.

End I3dComponent.

(** ** Concrete inputs for the extra runs *)

(** [ex_config] with [additional_dem_name] set. *)
Definition ex_config_copy : Config :=
  mkConfig 2 2 50 1%Q true true false false 0%Q 0 false (Some "dem_copy.png"%string)
           "map/data/dem.png" (Some [mkLayer "water" (Some true) 1]).

(** [ex_config] with a custom background. *)
Definition ex_config_custom : Config :=
  mkConfig 2 2 50 1%Q true true false false 0%Q 0 true None
           "map/data/dem.png" (Some [mkLayer "water" (Some true) 1]).

(** A world holding a 2x2 DEM at height [3] at the main DEM path and a 2x2
    DEM at height [7] at [background/full.png]. *)
Definition ex_world_previews : @World ex_externals :=
  mkWorld (fun p => if String.eqb p "map/data/dem.png"
                    then Some (@FRaster ex_externals (const_raster 2 2 3))
                    else if String.eqb p output_path
                    then Some (@FRaster ex_externals (const_raster 2 2 7)) else None)
          [] None None.

(** [ex_externals] whose water mask has the dry pixel [(1, 1)]. *)
Definition ex_externals_dry : Externals := {|
  Mesh := nat;
  Trimesh := fun _ faces => length faces;
  apply_transform := fun _ m => m;
  apply_scale := fun _ m => m;
  simplify_percent := fun _ _ m => m;
  simplify_face_count := fun _ m => m;
  face_count := fun m => m;
  resize_fx := fun _ r => r;
  linear_resample := fun r _ _ i j => px r i j;
  z_scaling_factor := 1%Q;
  texture_layers := fun _ => [of_rows [[255; 255]; [255; 0]]];
  dem_download := const_raster 2 2 1000
|}.

Definition ex_world_dry : @World ex_externals_dry := mkWorld (fun _ => None) [] None None.

(** [ex_externals] with a 3x3 DEM at height [1000] and a 3x3 water mask. *)
Definition ex_externals3 : Externals := {|
  Mesh := nat;
  Trimesh := fun _ faces => length faces;
  apply_transform := fun _ m => m;
  apply_scale := fun _ m => m;
  simplify_percent := fun _ _ m => m;
  simplify_face_count := fun _ m => m;
  face_count := fun m => m;
  resize_fx := fun _ r => r;
  linear_resample := fun r _ _ i j => px r i j;
  z_scaling_factor := 1%Q;
  texture_layers := fun _ => [const_raster 3 3 255];
  dem_download := const_raster 3 3 1000
|}.

(** [ex_config] with a background of size [3] and without water meshes. *)
Definition ex_config3 : Config :=
  mkConfig 2 3 50 1%Q true false false false 0%Q 0 false None
           "map/data/dem.png" (Some [mkLayer "water" (Some true) 1]).

(** A world holding a 2x2 DEM at height [3] at the main DEM path and a 3x3
    DEM at height [7] at [background/full.png]. *)
Definition ex_world_previews3 : @World ex_externals :=
  mkWorld (fun p => if String.eqb p "map/data/dem.png"
                    then Some (@FRaster ex_externals (const_raster 2 2 3))
                    else if String.eqb p output_path
                    then Some (@FRaster ex_externals (const_raster 3 3 7)) else None)
          [] None None.

Definition ex_world3 : @World ex_externals3 := mkWorld (fun _ => None) [] None None.

(** A boolean check on the final world of a successful run. *)
Definition ok_world_check {X : Externals} {A} (r : @Res X A) (P : @World X -> bool) : bool :=
  match r with Ok _ w => P w | Raise _ _ => false end.

Lemma ok_world_check_ok {X : Externals} {A} (r : @Res X A) P :
  ok_world_check r P = true -> exists a w, r = Ok a w /\ P w = true.
Proof. destruct r as [a w|e w]; simpl; [eauto|discriminate]. Qed.

(** A map generation where classes and components are numbers, constructing
    component [g] counts one step of state and component [3] raises. *)
Definition ex_construct (g : nat) (s : nat) : (nat * nat) + nat := inl (g, S s).
Definition ex_process_component (c : nat) (s : nat) : nat + nat :=
  if Nat.eqb c 3 then inr s else inl s.
Definition ex_log_error (c : nat) (s : nat) : nat := (s + 100)%nat.

(** A map i3d file with a terrain group below its scene. *)
Definition ex_i3d_root : I3dComponent.Elem :=
  I3dComponent.mkElem "i3D" [("name", "map")%string]
    [I3dComponent.mkElem "Scene" []
       [I3dComponent.mkElem "TerrainTransformGroup" [("heightScale", "255")%string] []]].

Definition ex_xml_world : I3dComponent.XmlWorld :=
  I3dComponent.mkXmlWorld
    (fun p => if String.eqb p "map/map.i3d" then Some (I3dComponent.XmlDoc ex_i3d_root)
              else None) [].

(** ** Runs of the concrete instance *)

#[local] Existing Instance ex_externals.

(** C4 (counterexample). In the run of [ex_config] (water depth [50]), the
    depth-adjusted DEM is written to [background/full.png] (event 4) before
    the map-sized main DEM (event 5), which carries the adjusted height [950]:
    the map cutout is saved after the depth adjustment, not before it. *)
Lemma process_map_cutout_written_after_depth_adjustment :
  exists w d m,
    @process ex_externals ex_config ex_world = Ok tt w /\
    nth_error (log w) 4 = Some (Wrote output_path (FRaster d)) /\
    nth_error (log w) 5 = Some (Wrote (dem_file_path ex_config) (FRaster m)) /\
    water_depth ex_config = 50 /\ px d 0 0 = 950 /\ px m 0 0 = 950.
Proof.
  destruct (@process ex_externals ex_config ex_world) as [u w|e w] eqn:E;
    vm_compute in E; [|discriminate E].
  injection E as <- <-.
  do 3 eexists. split; [reflexivity|].
  split; [reflexivity|]. split; [reflexivity|].
  split; [reflexivity|]. split; reflexivity.
Qed.

(** ** Witnesses *)


Lemma subtraction_uint16_wraparound_witness :
  rows (const_raster 3 3 255) = rows (const_raster 3 3 10) /\
  cols (const_raster 3 3 255) = cols (const_raster 3 3 10) /\
  0 < 50 < u16_modulus /\
  exists r, subtract_depth (const_raster 3 3 255) (const_raster 3 3 10) 50 = Some r /\
            rows r = 3%nat /\ cols r = 3%nat.
Proof.
  assert (Hd : 0 < 50 < u16_modulus) by (split; exact eq_refl).
  split; [reflexivity|]. split; [reflexivity|]. split; [exact Hd|].
  destruct (subtraction_uint16_wraparound (const_raster 3 3 255) (const_raster 3 3 10) 50
              eq_refl eq_refl Hd) as [r [Hr [Hrows [Hcols _]]]].
  exists r. split; [exact Hr|]. split; [exact Hrows|exact Hcols].
Defined.

Lemma composite_disjoint_counts_and_saturation_witness :
  let a := of_rows [[255; 0]; [0; 0]] in
  let b := of_rows [[0; 0]; [0; 7]] in
  rows a = 2%nat /\ cols a = 2%nat /\ rows b = 2%nat /\ cols b = 2%nat /\
  (forall i j, (i < 2)%nat -> (j < 2)%nat ->
     0 <= px a i j <= 255 /\ 0 <= px b i j <= 255) /\
  exists c, composite 2 [a; b] = Some c /\ count_px nonzero c = 2%nat /\
            count_px (Z.eqb 255) c = 1%nat.
Proof.
  intros a b.
  assert (Hb : forall i j, (i < 2)%nat -> (j < 2)%nat ->
                 0 <= px a i j <= 255 /\ 0 <= px b i j <= 255).
  { intros i j Hi Hj.
    destruct i as [|[|i]]; [| |lia]; (destruct j as [|[|j]]; [| |lia]);
      cbn; split; lia. }
  split; [reflexivity|]. split; [reflexivity|]. split; [reflexivity|].
  split; [reflexivity|]. split; [exact Hb|].
  destruct (composite_disjoint_counts_and_saturation 2 a b eq_refl eq_refl eq_refl eq_refl Hb)
    as [c [Hc [_ [_ [_ Hcnt]]]]].
  assert (Hdis : forall i j, (i < 2)%nat -> (j < 2)%nat -> px a i j = 0 \/ px b i j = 0).
  { intros i j Hi Hj.
    destruct i as [|[|i]]; [| |lia]; (destruct j as [|[|j]]; [| |lia]);
      cbn; auto. }
  destruct (Hcnt Hdis) as [H1 H2].
  exists c. split; [exact Hc|]. rewrite H1, H2. split; exact eq_refl.
Defined.


Lemma plane_from_np_exports_before_preview_witness :
  exists w', @plane_from_np ex_externals ex_config (const_raster 2 2 5) "out.obj"
               true true false ex_world = Ok tt w' /\
    exists mesh, plane_mesh ex_config (const_raster 2 2 5) true false = Some mesh /\
                 fs w' "out.obj" = Some (FMesh mesh).
Proof.
  destruct (@plane_from_np ex_externals ex_config (const_raster 2 2 5) "out.obj"
              true true false ex_world) as [u w'|e w'] eqn:E;
    pose proof E as E'; vm_compute in E'; [|discriminate E'].
  injection E' as Hu _. subst u.
  exists w'. split; [reflexivity|].
  destruct (@plane_from_np_exports_before_preview ex_externals ex_config ex_world w'
              (const_raster 2 2 5) "out.obj" true true false E)
    as [mesh [Hm [_ [_ Hf]]]].
  exists mesh. split; [exact Hm|]. apply Hf. discriminate.
Defined.

Lemma process_diagnostics_depth_then_map_cutout_witness :
  exists w, @process ex_externals ex_config ex_world = Ok tt w /\
    exists d0 c0 c1 l1 l2 l3,
      d0 = const_raster 2 2 1000 /\
      log w = l1 ++ [Wrote not_substracted_path (FRaster d0);
                     Wrote not_resized_path (FRaster c0)]
              ++ l2 ++ [Wrote (dem_file_path ex_config)
                          (FRaster (cv2_resize_linear c1 3 3))]
              ++ l3.
Proof.
  destruct (@process ex_externals ex_config ex_world) as [u w|e w] eqn:E;
    pose proof E as E'; vm_compute in E'; [|discriminate E'].
  injection E' as Hu _. subst u.
  exists w. split; [reflexivity|].
  destruct (@process_diagnostics_depth_then_map_cutout ex_externals ex_config ex_world w E)
    as [d0 [c0 [d1 [c1 [l1 [l2 [l3 [Hd0 [_ [_ [Hlog _]]]]]]]]]]].
  exists d0, c0, c1, l1, l2, l3. split; [exact Hd0|exact Hlog].
Defined.

Lemma elevated_water_input_prefers_original_witness :
  exists w, @process ex_externals_dry ex_config ex_world_dry = Ok tt w /\
    generate_water ex_config = true /\ water_resources_path ex_world_dry = None /\
    dem_file_path ex_config <> not_substracted_path /\
    exists water E m l,
      fs w water_resources_png = Some (FRaster water) /\
      elevated_water_input (const_raster 2 2 1000) water = Some E /\
      log w = l ++ [Wrote elevated_water_path (FMesh m)] /\
      px water 1 1 = 0 /\
      px (zero_non_water (const_raster 2 2 1000) water) 1 1 = 0 /\
      px E 1 1 = px (dilate 1 10 (zero_non_water (const_raster 2 2 1000) water)) 1 1 /\
      px E 1 1 = 1000.
Proof.
  assert (Hq : ok_world_check (@process ex_externals_dry ex_config ex_world_dry)
                 (fun w => match water_resources_path w, fs w water_resources_png with
                           | Some _, Some (FRaster r) =>
                               (px r 1 1 =? 0) &&
                               (px (dilate 1 10 (zero_non_water (const_raster 2 2 1000) r)) 1 1
                                =? 1000)
                           | _, _ => false
                           end) = true)
    by (vm_compute; reflexivity).
  destruct (ok_world_check_ok _ _ Hq) as [[] [w [E Hw]]]. cbv beta in Hw.
  assert (Hgw : generate_water ex_config = true) by reflexivity.
  assert (Hw0 : water_resources_path ex_world_dry = None) by reflexivity.
  assert (Hmain : dem_file_path ex_config <> not_substracted_path) by discriminate.
  exists w. split; [exact E|]. split; [exact Hgw|]. split; [exact Hw0|].
  split; [exact Hmain|].
  destruct (@elevated_water_input_prefers_original ex_externals_dry ex_config ex_world_dry w E
              Hgw Hw0 Hmain (fun n Hn => ltac:(discriminate Hn))) as [d0 [Hd0 Hcase]].
  change (d0 = const_raster 2 2 1000) in Hd0. subst d0.
  destruct Hcase as [[Hnone _]|[water [Ew [m [l [_ [Hfs [HE [_ [Hlog [_ [_ Hpx]]]]]]]]]]]].
  - rewrite Hnone in Hw. discriminate Hw.
  - exists water, Ew, m, l.
    rewrite Hfs in Hw. destruct (water_resources_path w); [|discriminate Hw].
    apply andb_true_iff in Hw. destruct Hw as [Hr0 Hrd].
    apply Z.eqb_eq in Hr0, Hrd.
    destruct (Hpx 1%nat 1%nat) as [Hz HEp].
    assert (Hz0 : px (zero_non_water (const_raster 2 2 1000) water) 1 1 = 0)
      by (rewrite Hz, Hr0; reflexivity).
    assert (HEd : px Ew 1 1 = px (dilate 1 10 (zero_non_water (const_raster 2 2 1000) water)) 1 1)
      by (rewrite HEp, Hz0; reflexivity).
    split; [exact Hfs|]. split; [exact HE|]. split; [exact Hlog|].
    split; [exact Hr0|]. split; [exact Hz0|]. split; [exact HEd|].
    rewrite HEd. exact Hrd.
Defined.

Lemma process_stl_preview_path_witness :
  exists w, @process ex_externals ex_config ex_world = Ok tt w /\
    stl_preview_path w = Some stl_preview_file.
Proof.
  destruct (@process ex_externals ex_config ex_world) as [u w|e w] eqn:E;
    pose proof E as E'; vm_compute in E'; [|discriminate E'].
  injection E' as Hu _. subst u.
  exists w. split; [reflexivity|].
  rewrite (@process_stl_preview_path ex_externals ex_config ex_world w E
             ltac:(discriminate) (fun n Hn => ltac:(discriminate Hn))).
  reflexivity.
Defined.

Lemma process_terrain_mesh_matches_main_dem_witness :
  exists w, @process ex_externals ex_config ex_world = Ok tt w /\
    exists d1 c1 m,
      cut_out_np d1 (Nat.div (map_size ex_config) 2) ReturnCutout = Some c1 /\
      In (Wrote (dem_file_path ex_config) (FRaster (cv2_resize_linear c1 3 3))) (log w) /\
      plane_mesh ex_config d1 false false = Some m /\
      In (Wrote background_obj_path (FMesh m)) (log w).
Proof.
  destruct (@process ex_externals ex_config ex_world) as [u w|e w] eqn:E;
    pose proof E as E'; vm_compute in E'; [|discriminate E'].
  injection E' as Hu _. subst u.
  exists w. split; [reflexivity|].
  exact (@process_terrain_mesh_matches_main_dem ex_externals ex_config ex_world w E
           eq_refl ltac:(discriminate) (fun n Hn => ltac:(discriminate Hn))).
Defined.

Lemma process_additional_dem_copy_witness :
  exists w, @process ex_externals ex_config_copy ex_world = Ok tt w /\
    exists c1 l1 l3,
      log w = l1 ++ [Wrote "map/data/dem.png" (FRaster (cv2_resize_linear c1 3 3));
                     Wrote (join_dirname "map/data/dem.png" "dem_copy.png")
                       (FRaster (cv2_resize_linear c1 3 3))] ++ l3.
Proof.
  destruct (@process ex_externals ex_config_copy ex_world) as [u w|e w] eqn:E;
    pose proof E as E'; vm_compute in E'; [|discriminate E'].
  injection E' as Hu _. subst u.
  exists w. split; [reflexivity|].
  exact (@process_additional_dem_copy ex_externals ex_config_copy ex_world w "dem_copy.png"
           E eq_refl).
Defined.

Lemma process_custom_background_missing_witness :
  exists w1, @create_background_textures ex_externals ex_config_custom ex_world = Ok tt w1 /\
    @process ex_externals ex_config_custom ex_world = Raise (FileNotFoundError output_path) w1 /\
    (forall w, @process ex_externals ex_config_custom ex_world <> Ok tt w).
Proof.
  destruct (@create_background_textures ex_externals ex_config_custom ex_world)
    as [u w1|e w1] eqn:E;
    pose proof E as E'; vm_compute in E'; [|discriminate E'].
  injection E' as Hu _. subst u.
  destruct (@process_custom_background_missing ex_externals ex_config_custom ex_world
              eq_refl eq_refl) as [Hr Hn].
  exists w1. split; [reflexivity|]. split; [exact (Hr w1 E)|exact Hn].
Defined.

Lemma triangulate_faces_index_vertices_witness :
  exists vs fs, triangulate true (of_rows [[1; 2]; [3; 4]]) = Some (vs, fs) /\
    length vs = 4%nat /\
    forall a b c, In (a, b, c) fs -> (a < 4 /\ b < 4 /\ c < 4)%nat.
Proof.
  destruct (triangulate true (of_rows [[1; 2]; [3; 4]])) as [[vs fs]|] eqn:E;
    pose proof E as E'; vm_compute in E'; [|discriminate E'].
  exists vs, fs. split; [reflexivity|].
  destruct (triangulate_faces_index_vertices true (of_rows [[1; 2]; [3; 4]]) vs fs E)
    as [Hl Hf].
  rewrite Hl in Hf |- *. split; [reflexivity|]. exact Hf.
Defined.

Lemma triangulate_vertex_heights_witness :
  exists vs fs hi lo, triangulate true (of_rows [[1; 2]; [3; 4]]) = Some (vs, fs) /\
    raster_max (of_rows [[1; 2]; [3; 4]]) = Some hi /\
    raster_min (of_rows [[1; 2]; [3; 4]]) = Some lo /\
    nth_error vs 2 = Some (0, 1, hi - 3) /\ 0 <= hi - 3 <= hi - lo.
Proof.
  destruct (triangulate true (of_rows [[1; 2]; [3; 4]])) as [[vs fs]|] eqn:E;
    pose proof E as E'; vm_compute in E'; [|discriminate E'].
  exists vs, fs, 4, 1.
  assert (Hhi : raster_max (of_rows [[1; 2]; [3; 4]]) = Some 4) by reflexivity.
  assert (Hlo : raster_min (of_rows [[1; 2]; [3; 4]]) = Some 1) by reflexivity.
  split; [reflexivity|]. split; [exact Hhi|]. split; [exact Hlo|].
  exact (triangulate_vertex_heights true (of_rows [[1; 2]; [3; 4]]) vs fs 4 1 E Hhi Hlo
           1 0 ltac:(vm_compute; lia) ltac:(vm_compute; lia)).
Defined.

Lemma triangulate_excluding_skips_minimum_cells_witness :
  exists vs fs, raster_min (of_rows [[0; 1; 2]; [3; 4; 5]]) = Some 0 /\
    triangulate false (of_rows [[0; 1; 2]; [3; 4; 5]]) = Some (vs, fs) /\
    fs = [(1, 4, 5); (1, 5, 2)]%nat.
Proof.
  destruct (triangulate false (of_rows [[0; 1; 2]; [3; 4; 5]])) as [[vs fs]|] eqn:E;
    pose proof E as E'; vm_compute in E'; [|discriminate E'].
  assert (Hlo : raster_min (of_rows [[0; 1; 2]; [3; 4; 5]]) = Some 0) by reflexivity.
  exists vs, fs. split; [exact Hlo|]. split; [reflexivity|].
  rewrite (triangulate_excluding_skips_minimum_cells (of_rows [[0; 1; 2]; [3; 4; 5]]) 0 vs fs
             Hlo E).
  reflexivity.
Defined.

Lemma subtract_depth_selects_submerged_witness :
  exists r, subtract_depth (of_rows [[255; 255; 255]; [255; 255; 255]; [255; 255; 0]])
              (const_raster 3 3 1000) 50 = Some r /\
    px r 0 0 = 950 /\ px r 2 1 = 1000.
Proof.
  destruct (subtract_depth (of_rows [[255; 255; 255]; [255; 255; 255]; [255; 255; 0]])
              (const_raster 3 3 1000) 50) as [r|] eqn:E;
    pose proof E as E'; vm_compute in E'; [|discriminate E'].
  exists r. split; [reflexivity|].
  destruct (subtract_depth_selects_submerged
              (of_rows [[255; 255; 255]; [255; 255; 255]; [255; 255; 0]])
              (const_raster 3 3 1000) 50 r E) as [_ [_ Hpx]].
  split.
  - rewrite (proj1 (Hpx 0%nat 0%nat ltac:(vm_compute; lia) ltac:(vm_compute; lia))).
    + reflexivity.
    + intros a b Ha Hb _ _.
      destruct a as [|[|a]]; [| |lia]; (destruct b as [|[|b]]; [| |lia]); reflexivity.
  - rewrite (proj2 (Hpx 2%nat 1%nat ltac:(vm_compute; lia) ltac:(vm_compute; lia))).
    + reflexivity.
    + exists 2%nat, 2%nat. vm_compute. split; [lia|]. split; [lia|]. split; [lia|].
      split; [lia|]. intros Hc. discriminate Hc.
Defined.


Lemma previews_writes_and_lists_witness :
  exists w', @previews ex_externals ex_config (fun r => r) (fun r => r) (fun r => r)
               ex_world_previews3 =
    Ok [grayscale_dem_path; colored_dem_path; background_dem_preview_path] w' /\
    log w' = [Wrote grayscale_dem_path (FRaster (const_raster 2 2 3));
              Wrote colored_dem_path (FRaster (const_raster 2 2 3));
              Wrote background_dem_preview_path (FRaster (const_raster 3 3 7))].
Proof.
  destruct (@previews_writes_and_lists ex_externals ex_config (fun r => r) (fun r => r)
              (fun r => r) ex_world_previews3 (const_raster 2 2 3) (const_raster 3 3 7)
              eq_refl eq_refl (le_n 3) (le_n 3) ltac:(discriminate)) as [w' [Hp [Hl _]]].
  exists w'. rewrite Hp, Hl. split; reflexivity.
Defined.

Lemma previews_small_background_raises_witness :
  exists w', @previews ex_externals ex_config (fun r => r) (fun r => r) (fun r => r)
               ex_world_previews = Raise RuntimeError w' /\
    log w' = [Wrote grayscale_dem_path (FRaster (const_raster 2 2 3));
              Wrote colored_dem_path (FRaster (const_raster 2 2 3))] /\
    fs w' background_dem_preview_path = None.
Proof.
  destruct (@previews_small_background_raises ex_externals ex_config (fun r => r) (fun r => r)
              (fun r => r) ex_world_previews (const_raster 2 2 3) (const_raster 2 2 7)
              eq_refl eq_refl (or_introl (le_n 2)) ltac:(discriminate)) as [w' [Hp [Hl Hf]]].
  exists w'. rewrite Hp, Hl, Hf. split; [reflexivity|]. split; reflexivity.
Defined.

Lemma previews_missing_dem_raises_witness :
  @previews ex_externals ex_config (fun r => r) (fun r => r) (fun r => r) ex_world =
  Raise RuntimeError ex_world.
Proof.
  exact (@previews_missing_dem_raises ex_externals ex_config (fun r => r) (fun r => r)
           (fun r => r) ex_world (fun d Hd => ltac:(discriminate Hd))).
Defined.

Lemma previews_after_process_lists_stl_witness :
  exists w, @process ex_externals3 ex_config3 ex_world3 = Ok tt w /\
    exists w', @previews ex_externals3 ex_config3 (fun r => r) (fun r => r) (fun r => r) w =
      Ok [grayscale_dem_path; colored_dem_path; background_dem_preview_path;
          stl_preview_file] w'.
Proof.
  assert (Hq : ok_world_check (@process ex_externals3 ex_config3 ex_world3)
                 (fun w => match fs w output_path with
                           | Some (FRaster r) => (3 <=? rows r)%nat && (3 <=? cols r)%nat
                           | _ => false
                           end) = true)
    by (vm_compute; reflexivity).
  destruct (ok_world_check_ok _ _ Hq) as [[] [w [E Hw]]]. cbv beta in Hw.
  assert (Hsize : forall b, fs w output_path = Some (FRaster b) ->
                            (3 <= rows b /\ 3 <= cols b)%nat).
  { intros b Hb. rewrite Hb in Hw. apply andb_true_iff in Hw. destruct Hw as [Hr Hc].
    apply Nat.leb_le in Hr, Hc. split; [exact Hr|exact Hc]. }
  exists w. split; [exact E|].
  exact (@previews_after_process_lists_stl ex_externals3 ex_config3 (fun r => r) (fun r => r)
           (fun r => r) ex_world3 w E eq_refl
           ltac:(intros Hin; vm_compute in Hin;
                 repeat (destruct Hin as [Hin|Hin]; [discriminate Hin|]); destruct Hin)
           (fun n Hn => ltac:(discriminate Hn)) Hsize).
Defined.

Lemma generate_stops_at_failing_component_witness :
  @generate nat nat nat ex_construct ex_process_component ex_log_error
    ([1; 2] ++ 3 :: [4])%nat [] 0%nat =
  @ProcessRaised nat nat [1; 2]%nat 3%nat 103%nat.
Proof.
  exact (@generate_stops_at_failing_component nat nat nat ex_construct ex_process_component
           ex_log_error [1; 2]%nat [4]%nat 3%nat [] [1; 2]%nat 0%nat 2%nat 3%nat 3%nat 3%nat
           eq_refl eq_refl eq_refl).
Defined.

Lemma generate_one_component_per_class_witness :
  exists built, [1; 2]%nat = [] ++ built /\
    Forall2 (fun g c => exists t t', ex_construct g t = inl (c, t')) [1; 2]%nat built.
Proof.
  exact (@generate_one_component_per_class nat nat nat ex_construct ex_process_component
           ex_log_error [1; 2]%nat [] [1; 2]%nat 0%nat 2%nat eq_refl).
Defined.

Lemma process_raise_writes_nothing_witness :
  I3dComponent.process (Some "map/other.i3d"%string) ex_xml_world =
    I3dComponent.I3dRaise (I3dComponent.I3dFileNotFound "map/other.i3d")
      (I3dComponent.xml_emit ex_xml_world (I3dComponent.I3dWarning "I3D file not found: %s.")) /\
  I3dComponent.xml_log
    (I3dComponent.xml_emit ex_xml_world (I3dComponent.I3dWarning "I3D file not found: %s.")) =
  [I3dComponent.I3dWarning "I3D file not found: %s."].
Proof.
  assert (E : I3dComponent.process (Some "map/other.i3d"%string) ex_xml_world =
    I3dComponent.I3dRaise (I3dComponent.I3dFileNotFound "map/other.i3d")
      (I3dComponent.xml_emit ex_xml_world (I3dComponent.I3dWarning "I3D file not found: %s.")))
    by reflexivity.
  split; [exact E|].
  destruct (I3dComponent.process_raise_writes_nothing _ _ _ _ E) as [_ [path [Hp Hcase]]].
  injection Hp as <-.
  destruct Hcase as [[_ [_ Hl]]|[Hf _]]; [exact Hl|discriminate Hf].
Defined.

Lemma process_ok_rewrites_file_witness :
  exists w', I3dComponent.process (Some "map/map.i3d"%string) ex_xml_world =
               I3dComponent.I3dOk w' /\
    I3dComponent.xml_fs w' "map/map.i3d" =
      Some (I3dComponent.XmlDoc
        (I3dComponent.mkElem "i3D" [("name", "map")%string]
          [I3dComponent.mkElem "Scene" []
             [I3dComponent.mkElem "TerrainTransformGroup"
                [("heightScale", "2000")%string; ("maxLODDistance", "10000")%string] []]])).
Proof.
  destruct (I3dComponent.process (Some "map/map.i3d"%string) ex_xml_world) as [w'|e w'] eqn:E;
    pose proof E as E'; vm_compute in E'; [|discriminate E'].
  exists w'. split; [reflexivity|].
  destruct (I3dComponent.process_ok_rewrites_file "map/map.i3d" ex_xml_world w'
              ltac:(discriminate) E) as [root [Hr [Hw _]]].
  injection Hr as <-. rewrite Hw. reflexivity.
Defined.
